(** * gmail-mcp-manager: the OAuth2 coordinator and the documentation cache

    A shallow embedding of [src/auth.service.ts], of the Context7 service
    (the second half of [src/types.ts]) and of the two environment factories
    ([AuthService.fromEnvironment], [createFromEnvironment] of [src/index.ts]),
    with the properties the specification states about them.

    Conventions.
    - JavaScript numbers that hold millisecond timestamps are integers below
      2^53, modelled as [Z].
    - A value that may be [undefined] is an [option]; JavaScript truthiness is
      written out ([truthy_str], [truthy_num]).
    - An awaited promise of an external library is an [Outcome]: the value
      it fulfils with, or the error it rejects with.
    - [console.log] output is not modelled. *)

From Stdlib Require Import ZArith Lia Ascii String List.
From stdpp Require Import base option list strings gmap pretty.

Local Open Scope Z_scope.

(** ** JavaScript values shared by the two services *)

Module Js.

(** The error classes of [src/types.ts]; [PlainError] is a JavaScript
    [Error] that is not a [GmailMCPError] (thrown by [new Error(..)] or by a
    library). *)
Inductive JsError :=
| AuthenticationError (message : string)
| APIError (message : string) (statusCode : Z)
| PlainError (message : string).

Definition message_of (e : JsError) : string :=
  match e with
  | AuthenticationError m => m
  | APIError m _ => m
  | PlainError m => m
  end.

(** [GmailMCPError.code] and [statusCode]; a plain [Error] has neither. *)
Definition code_of (e : JsError) : option string :=
  match e with
  | AuthenticationError _ => Some "AUTHENTICATION_ERROR"%string
  | APIError _ _ => Some "API_ERROR"%string
  | PlainError _ => None
  end.

Definition is_AuthenticationError (e : JsError) : bool :=
  match e with AuthenticationError _ => true | _ => false end.

(** What an awaited library promise settles to. *)
Inductive Outcome (A : Type) :=
| Fulfilled (a : A)
| Rejects (e : JsError).
Arguments Fulfilled {A} a.
Arguments Rejects {A} e.

(** Truthiness of a string and of a number. *)
Definition truthy_str (s : string) : bool :=
  match s with EmptyString => false | String _ _ => true end.

Definition truthy_num (z : Z) : bool := negb (z =? 0).

(** A value that is present and not the empty string. *)
Definition truthy (o : option string) : option string :=
  match o with
  | Some s => if truthy_str s then Some s else None
  | None => None
  end.

(** [o || d] for an optional string [o]. *)
Definition or_default (o : option string) (d : string) : string :=
  match o with
  | Some s => if truthy_str s then s else d
  | None => d
  end.

(** [hay.includes(needle)], which is also [hay.indexOf(needle) > -1]. *)
Fixpoint includes (hay needle : string) : bool :=
  String.prefix needle hay ||
  match hay with
  | EmptyString => false
  | String _ rest => includes rest needle
  end.

(** [s.toLowerCase()] on ASCII text. *)
Definition lower_ascii (c : ascii) : ascii :=
  let n := nat_of_ascii c in
  if ((65 <=? n) && (n <=? 90))%nat then ascii_of_nat (n + 32) else c.

Fixpoint toLowerCase (s : string) : string :=
  match s with
  | EmptyString => EmptyString
  | String c rest => String (lower_ascii c) (toLowerCase rest)
  end.

(** [s.split(sep)] for a one-character separator: never the empty list. *)
Fixpoint split (sep : ascii) (s : string) : list string :=
  match s with
  | EmptyString => [EmptyString]
  | String c rest =>
      if Ascii.eqb c sep then EmptyString :: split sep rest
      else match split sep rest with
           | [] => [String c EmptyString]
           | w :: ws => String c w :: ws
           end
  end.

(** [l.join(sep)]. *)
Fixpoint join (sep : string) (l : list string) : string :=
  match l with
  | [] => EmptyString
  | [w] => w
  | w :: ws => w +:+ sep +:+ join sep ws
  end.

(** [l.slice(-n)]: the last [n] elements. *)
Definition slice_last {A} (n : nat) (l : list A) : list A :=
  drop (length l - n)%nat l.

End Js.
Import Js.

(** ** The Context7 documentation service ([Context7Service] of [src/types.ts]) *)

Module Context7.

Record Context7Response := {
  documentation : string;
  examples : list string;
  relevantLinks : list string;
}.

(** [CACHE_DURATION = 30 * 60 * 1000] milliseconds. *)
Definition CACHE_DURATION : Z := 30 * 60 * 1000.

(** The service object: the flag and the two parallel maps. *)
Record Context7Service := {
  enabled : bool;
  cache : gmap string Context7Response;
  cacheExpiry : gmap string Z;
}.

(** [new Context7Service(enabled = true)]. *)
Definition new (enabled : option bool) : Context7Service :=
  {| enabled := default true enabled; cache := ∅; cacheExpiry := ∅ |}.

Definition setEnabled (b : bool) (s : Context7Service) : Context7Service :=
  {| enabled := b; cache := cache s; cacheExpiry := cacheExpiry s |}.

Definition isEnabled (s : Context7Service) : bool := enabled s.

Definition clearCache (s : Context7Service) : Context7Service :=
  {| enabled := enabled s; cache := ∅; cacheExpiry := ∅ |}.

(** [getCacheStats()]: size and keys of the value map (the keys as a set;
    the source lists them in insertion order). *)
Definition getCacheStats (s : Context7Service) : nat * gset string :=
  (size (cache s), dom (cache s)).

(** The template [`${operation}-${context || 'default'}`]. *)
Definition cacheKey (operation : string) (context : option string) : string :=
  operation +:+ "-" +:+ or_default context "default".

(** [getCachedResponse(key)] at time [now = Date.now()]: the entry when both
    maps have the key and [now < expiry]; otherwise a present value is
    deleted from both maps. *)
Definition live (now : Z) (cached : option Context7Response) (expiry : option Z) : bool :=
  match cached, expiry with
  | Some _, Some e => truthy_num e && (now <? e)
  | _, _ => false
  end.

Definition getCachedResponse (now : Z) (key : string) (s : Context7Service)
  : Context7Service * option Context7Response :=
  let cached := cache s !! key in
  let expiry := cacheExpiry s !! key in
  if live now cached expiry then (s, cached)
  else
    match cached with
    | Some _ =>
        ({| enabled := enabled s;
            cache := delete key (cache s);
            cacheExpiry := delete key (cacheExpiry s) |}, None)
    | None => (s, None)
    end.

(** [setCachedResponse(key, response)] at time [now = Date.now()]. *)
Definition setCachedResponse (now : Z) (key : string) (response : Context7Response)
  (s : Context7Service) : Context7Service :=
  {| enabled := enabled s;
     cache := <[key := response]> (cache s);
     cacheExpiry := <[key := now + CACHE_DURATION]> (cacheExpiry s) |}.

(** The own properties of the object literal [operationMap] of
    [mapOperationToSearchTerm], in source order. *)
Definition operationMap : list (string * string) :=
  [ ("authenticate", "Gmail API OAuth2 authentication");
    ("listMessages", "Gmail API list messages");
    ("getMessage", "Gmail API get message details");
    ("sendMessage", "Gmail API send email");
    ("createDraft", "Gmail API create draft");
    ("updateDraft", "Gmail API update draft");
    ("sendDraft", "Gmail API send draft");
    ("listDrafts", "Gmail API list drafts");
    ("batchOperation", "Gmail API batch modify messages");
    ("getLabels", "Gmail API list labels");
    ("getThread", "Gmail API get thread");
    ("listThreads", "Gmail API list threads");
    ("getStats", "Gmail API mailbox statistics") ]%string.

(** What the object literal inherits from [Object.prototype]: for each
    inherited name, the text that a template literal makes of the inherited
    value on Node.js.  The values are built-in functions, and for [__proto__]
    the prototype object itself: all of them are truthy, none is a string. *)
Definition objectPrototype : list (string * string) :=
  [ ("constructor", "function Object() { [native code] }");
    ("__defineGetter__", "function __defineGetter__() { [native code] }");
    ("__defineSetter__", "function __defineSetter__() { [native code] }");
    ("hasOwnProperty", "function hasOwnProperty() { [native code] }");
    ("__lookupGetter__", "function __lookupGetter__() { [native code] }");
    ("__lookupSetter__", "function __lookupSetter__() { [native code] }");
    ("isPrototypeOf", "function isPrototypeOf() { [native code] }");
    ("propertyIsEnumerable", "function propertyIsEnumerable() { [native code] }");
    ("toString", "function toString() { [native code] }");
    ("valueOf", "function valueOf() { [native code] }");
    ("__proto__", "[object Object]");
    ("toLocaleString", "function toLocaleString() { [native code] }") ]%string.

Definition assoc {A} (k : string) (l : list (string * A)) : option A :=
  snd <$> List.find (fun kv => String.eqb (fst kv) k) l.

(** The value that [mapOperationToSearchTerm] returns and that the fetch
    function receives: a string, or the inherited member of [operationMap]
    under [name], which is no string. *)
Inductive SearchTerm :=
| Text (s : string)
| Inherited (name : string).

(** [`${baseSearch}`]. *)
Definition toText (t : SearchTerm) : string :=
  match t with
  | Text s => s
  | Inherited name => default EmptyString (assoc name objectPrototype)
  end.

(** [operationMap[operation]]: the own property, else the inherited one. *)
Definition lookupOperation (operation : string) : option SearchTerm :=
  match assoc operation operationMap with
  | Some own => if truthy_str own then Some (Text own) else None
  | None =>
      match assoc operation objectPrototype with
      | Some _ => Some (Inherited operation)
      | None => None
      end
  end.

Definition mapOperationToSearchTerm (operation : string) (context : option string)
  : SearchTerm :=
  let baseSearch :=
    default (Text ("Gmail API " +:+ operation)) (lookupOperation operation) in
  match context with
  | Some c => if truthy_str c then Text (toText baseSearch +:+ " " +:+ c) else baseSearch
  | None => baseSearch
  end.

(** The double-quote character, for the mock texts that contain it. *)
Definition dq : string := String (ascii_of_nat 34) EmptyString.

(** [mockResponses] of [getMockDocumentation], in source order. *)
Definition mockResponses : list (string * Context7Response) :=
  [ ("Gmail API OAuth2 authentication",
     {| documentation := "OAuth2 authentication for Gmail API requires:
1. Client ID and Client Secret from Google Cloud Console
2. Redirect URI configured in OAuth consent screen
3. Appropriate scopes (gmail.modify, gmail.readonly, etc.)
4. Token storage for refresh tokens

Security considerations:
- Store tokens securely with proper file permissions
- Use refresh tokens to avoid repeated authentication
- Implement token expiry checking and automatic refresh";
        examples :=
          [ "const authService = new AuthService(config); await authService.authenticate();";
            "const client = AuthService.fromEnvironment(); // Uses .env variables" ];
        relevantLinks :=
          [ "https://developers.google.com/gmail/api/auth/oauth2";
            "https://github.com/googleapis/google-auth-library-nodejs" ] |});
    ("Gmail API list messages",
     {| documentation := "List messages endpoint allows filtering and pagination:
- Use 'q' parameter for advanced search queries
- Support for label filtering with labelIds
- Pagination with maxResults and pageToken
- includeSpamTrash to include spam/trash messages

Query examples:
- 'is:unread' - unread messages
- 'from:example@gmail.com' - from specific sender
- 'subject:important' - messages with 'important' in subject
- 'has:attachment' - messages with attachments";
        examples :=
          [ "await gmail.listMessages({ query: " +:+ dq +:+ "is:unread" +:+ dq
              +:+ ", maxResults: 50 })";
            "await gmail.listMessages({ labelIds: [" +:+ dq +:+ "INBOX" +:+ dq
              +:+ "], includeSpamTrash: false })" ];
        relevantLinks :=
          [ "https://developers.google.com/gmail/api/reference/rest/v1/users.messages/list";
            "https://developers.google.com/gmail/api/guides/filtering" ] |});
    ("Gmail API send email",
     {| documentation := "Send email using raw MIME format:
- Construct proper MIME headers (To, Cc, Bcc, Subject)
- Support for HTML and plain text content
- Attachment handling with base64 encoding
- Proper Content-Type and boundary handling for multipart messages

MIME structure:
1. Headers (To, From, Subject, etc.)
2. Content-Type declaration
3. Message body (text/html or text/plain)
4. Attachments (if any) with proper encoding";
        examples :=
          [ "await gmail.sendMessage({ to: [" +:+ dq +:+ "user@example.com" +:+ dq
              +:+ "], subject: " +:+ dq +:+ "Test" +:+ dq
              +:+ ", body: " +:+ dq +:+ "Hello!" +:+ dq +:+ " })";
            "await gmail.sendMessage({ to: [" +:+ dq +:+ "user@example.com" +:+ dq
              +:+ "], subject: " +:+ dq +:+ "HTML" +:+ dq
              +:+ ", body: " +:+ dq +:+ "<h1>Hello!</h1>" +:+ dq
              +:+ ", isHtml: true })" ];
        relevantLinks :=
          [ "https://developers.google.com/gmail/api/reference/rest/v1/users.messages/send";
            "https://developers.google.com/gmail/api/guides/sending" ] |}) ]%string.

(** The placeholder returned when no mock key matches. *)
Definition placeholder (searchTerm : string) : Context7Response :=
  {| documentation := ("Documentation for: " +:+ searchTerm +:+ "

This is a placeholder response. In production, Context7 would provide
up-to-date documentation from the official Gmail API documentation.

Key points:
- Always check the official Gmail API documentation
- Use proper error handling for API calls
- Implement rate limiting and retry logic
- Follow security best practices for token handling")%string;
     examples :=
       [ "Check official Gmail API documentation for examples";
         "Refer to googleapis Node.js client library documentation" ]%string;
     relevantLinks :=
       [ "https://developers.google.com/gmail/api";
         "https://github.com/googleapis/googleapis" ]%string |}.

(** [k.toLowerCase().split(' ').slice(-2).join(' ')]. *)
Definition lastTwoWords (k : string) : string :=
  join " " (slice_last 2 (split " "%char (toLowerCase k))).

(** [getMockDocumentation(searchTerm)]: the first mock whose last two words
    occur in the lower-cased search term, else the placeholder. *)
Definition getMockDocumentation (searchTerm : string) : Context7Response :=
  match List.find (fun kv => includes (toLowerCase searchTerm) (lastTwoWords (fst kv)))
                  mockResponses with
  | Some (_, r) => r
  | None => placeholder searchTerm
  end.

(** [fetchFromContext7(searchTerm)]: a 100 ms delay, then the mock.  On a
    search term that is no string, [searchTerm.toLowerCase()] in the mock
    throws a [TypeError], and the promise rejects. *)
Definition fetchFromContext7 (searchTerm : SearchTerm) : Outcome Context7Response :=
  match searchTerm with
  | Text s => Fulfilled (getMockDocumentation s)
  | Inherited _ => Rejects (PlainError "searchTerm.toLowerCase is not a function")
  end.

(** The result and the observable effect of one call: which search terms were
    handed to the fetch function, in order. *)
Record Call := {
  service : Context7Service;
  result : option Context7Response;
  fetched : list SearchTerm;
}.

Section Lookup.

(** The awaited documentation fetch: what its promise settles to for each
    search term.  The source calls [fetchFromContext7] here; the lookup is
    written over any fetch function, so that one whose promise rejects is
    covered too. *)
Variable fetch : SearchTerm -> Outcome Context7Response.

(** [getRelevantDocumentation(operation, context)].  [now] is the clock read
    by the cache lookup, [later] the clock read when the fetched value is
    stored.  A rejected fetch is caught and turned into [null]. *)
Definition getRelevantDocumentation (now later : Z) (operation : string)
  (context : option string) (s : Context7Service) : Call :=
  if negb (enabled s) then {| service := s; result := None; fetched := [] |}
  else
    let key := cacheKey operation context in
    let '(s1, cached) := getCachedResponse now key s in
    match cached with
    | Some doc => {| service := s1; result := Some doc; fetched := [] |}
    | None =>
        let searchTerm := mapOperationToSearchTerm operation context in
        match fetch searchTerm with
        | Fulfilled doc =>
            {| service := setCachedResponse later key doc s1;
               result := Some doc;
               fetched := [searchTerm] |}
        | Rejects _ =>
            {| service := s1; result := None; fetched := [searchTerm] |}
        end
    end.

(** One call as the caller makes it: the two clock readings and the
    arguments. *)
Record Request := {
  asked_at : Z;
  stored_at : Z;
  operation : string;
  context : option string;
}.

(** A sequence of calls on the same service object, one after the other:
    the final service, the results in order, and all search terms fetched. *)
Fixpoint session (requests : list Request) (s : Context7Service)
  : Context7Service * list (option Context7Response) * list SearchTerm :=
  match requests with
  | [] => (s, [], [])
  | r :: rest =>
      let c := getRelevantDocumentation (asked_at r) (stored_at r)
                 (operation r) (context r) s in
      let '(s', results, terms) := session rest (service c) in
      (s', result c :: results, fetched c ++ terms)
  end.

End Lookup.

End Context7.

(** ** The interactive OAuth2 flow ([AuthService.performOAuth2Flow]) *)

Module Flow.

(** The credential record: [TokenData] of [src/types.ts], which is also the
    shape of [oAuth2Client.credentials]; every field may be absent in memory
    (after [setCredentials({})]) or in the token file. *)
Record TokenData := {
  access_token : option string;
  refresh_token : option string;
  scope : option string;
  token_type : option string;
  expiry_date : option Z;
}.

Definition noCredentials : TokenData :=
  {| access_token := None; refresh_token := None; scope := None;
     token_type := None; expiry_date := None |}.

(** The state of the promise returned by [performOAuth2Flow]. *)
Inductive Settlement :=
| Pending
| Resolved
| Rejected (e : JsError).

Definition settled (p : Settlement) : bool :=
  match p with Pending => false | _ => true end.

(** What the flow does to the outside world. *)
Inductive FlowEffect :=
| OpenBrowser
| TokenExchange (code : string).

(** Everything one invocation of the flow owns: the HTTP server (whether it
    is bound to the port, how often [server.destroy()] was called and how
    often that released the port), the [setTimeout] timer (the source holds no
    handle to it and never calls [clearTimeout]), the promise, the codes of
    the [getToken] calls in flight (in the order the calls were made), the
    bodies written with [res.end], and the credentials of the shared OAuth2
    client. *)
Record Flow := {
  listening : bool;
  destroy_calls : nat;
  port_releases : nat;
  timer_armed : bool;
  promise : Settlement;
  exchanging : list string;
  responses : list string;
  credentials : TokenData;
  effects : list FlowEffect;
}.

(** What can happen to a running flow: the handler is called with a
    request, the [getToken] call at position [i] of those in flight settles,
    or the timer fires. *)
Inductive Event :=
| Request (url : option string)
| ExchangeSettles (i : nat)
| TimerFires.

Definition eventIsTimer (e : Event) : bool :=
  match e with TimerFires => true | _ => false end.

(** [server.destroy()] of the server-destroy package: closes the server and
    its sockets.  Closing a server that is not listening releases nothing. *)
Definition destroy (f : Flow) : Flow :=
  {| listening := false;
     destroy_calls := S (destroy_calls f);
     port_releases := if listening f then S (port_releases f) else port_releases f;
     timer_armed := timer_armed f;
     promise := promise f;
     exchanging := exchanging f;
     responses := responses f;
     credentials := credentials f;
     effects := effects f |}.

(** [resolve(..)] and [reject(..)]: only the first settlement counts. *)
Definition settle (p : Settlement) (f : Flow) : Flow :=
  match promise f with
  | Pending =>
      {| listening := listening f; destroy_calls := destroy_calls f;
         port_releases := port_releases f; timer_armed := timer_armed f;
         promise := p;
         exchanging := exchanging f; responses := responses f;
         credentials := credentials f; effects := effects f |}
  | _ => f
  end.

Definition reject (e : JsError) : Flow -> Flow := settle (Rejected e).
Definition resolve : Flow -> Flow := settle Resolved.

(** [res.end(body)]. *)
Definition respond (body : string) (f : Flow) : Flow :=
  {| listening := listening f; destroy_calls := destroy_calls f;
     port_releases := port_releases f; timer_armed := timer_armed f;
     promise := promise f; exchanging := exchanging f;
     responses := responses f ++ [body];
     credentials := credentials f; effects := effects f |}.

(** [this.oAuth2Client.getToken(code)] is called and awaited. *)
Definition beginExchange (code : string) (f : Flow) : Flow :=
  {| listening := listening f; destroy_calls := destroy_calls f;
     port_releases := port_releases f; timer_armed := timer_armed f;
     promise := promise f; exchanging := exchanging f ++ [code];
     responses := responses f;
     credentials := credentials f; effects := effects f ++ [TokenExchange code] |}.

Definition endExchange (i : nat) (f : Flow) : Flow :=
  {| listening := listening f; destroy_calls := destroy_calls f;
     port_releases := port_releases f; timer_armed := timer_armed f;
     promise := promise f; exchanging := delete i (exchanging f);
     responses := responses f;
     credentials := credentials f; effects := effects f |}.

Definition setCredentials (t : TokenData) (f : Flow) : Flow :=
  {| listening := listening f; destroy_calls := destroy_calls f;
     port_releases := port_releases f; timer_armed := timer_armed f;
     promise := promise f; exchanging := exchanging f;
     responses := responses f;
     credentials := t; effects := effects f |}.

Definition timerFired (f : Flow) : Flow :=
  {| listening := listening f; destroy_calls := destroy_calls f;
     port_releases := port_releases f; timer_armed := false;
     promise := promise f; exchanging := exchanging f;
     responses := responses f;
     credentials := credentials f; effects := effects f |}.

(** [qs.get(name)]: the first value under [name], or [null]. *)
Definition get (name : string) (qs : list (string * string)) : option string :=
  snd <$> List.find (fun kv => String.eqb (fst kv) name) qs.

(** The state right after the promise executor has run: the server listens
    on port 3000, the browser was opened, the timer is armed. *)
Definition start (creds : TokenData) : Flow :=
  {| listening := true; destroy_calls := 0; port_releases := 0;
     timer_armed := true; promise := Pending; exchanging := [];
     responses := []; credentials := creds; effects := [OpenBrowser] |}.

Section Machine.

(** [new URL(url, 'http://localhost:3000').searchParams]: the query pairs in
    order, or the [TypeError] the constructor throws. *)
Variable searchParams : string -> JsError + list (string * string).

(** What the token endpoint answers to [getToken(code)]. *)
Variable getToken : string -> Outcome TokenData.

(** The [catch] block of the request handler. *)
Definition handlerCatch (err : JsError) (f : Flow) : Flow :=
  reject err (destroy (respond ("❌ Authentication error: " +:+ message_of err) f)).

(** The request handler up to its first [await]. *)
Definition onRequest (url : option string) (f : Flow) : Flow :=
  match truthy url with
  | Some u =>
      if includes u "/oauth2callback" then
        match searchParams u with
        | inl err => handlerCatch err f
        | inr qs =>
            let code := get "code" qs in
            let error := get "error" qs in
            match truthy error with
            | Some e =>
                reject (AuthenticationError ("OAuth2 error: " +:+ e))
                  (destroy (respond ("❌ Authentication failed: " +:+ e) f))
            | None =>
                match truthy code with
                | None =>
                    reject (AuthenticationError "No authorization code received")
                      (destroy (respond "❌ No authorization code received" f))
                | Some c =>
                    beginExchange c
                      (destroy
                         (respond "✅ Authentication successful! You can close this window and return to the terminal." f))
                end
            end
        end
      else f
  | None => f
  end.

(** The rest of the handler, run when the awaited [getToken] call at
    position [i] settles. *)
Definition onExchange (i : nat) (f : Flow) : Flow :=
  match exchanging f !! i with
  | Some code =>
      match getToken code with
      | Fulfilled tokens => resolve (setCredentials tokens (endExchange i f))
      | Rejects err => handlerCatch err (endExchange i f)
      end
  | None => f
  end.

(** The [setTimeout] callback. *)
Definition onTimer (f : Flow) : Flow :=
  reject (AuthenticationError "Authentication timeout - please try again")
    (destroy (timerFired f)).

(** One event.  The handler has no guard of its own: it runs for every
    request it is called with, also for one that was received on an open
    connection before [server.destroy()] and is handled after it.  The timer
    callback runs once. *)
Definition step (f : Flow) (ev : Event) : Flow :=
  match ev with
  | Request url => onRequest url f
  | ExchangeSettles i => onExchange i f
  | TimerFires => if timer_armed f then onTimer f else f
  end.

Definition run (evs : list Event) (f : Flow) : Flow := fold_left step evs f.

(** The events handled up to the settlement of the promise, which is when
    a caller awaiting the promise goes on: the flow at that moment, and the
    events still to come. *)
Fixpoint untilSettled (evs : list Event) (f : Flow) : Flow * list Event :=
  match evs with
  | [] => (f, [])
  | ev :: rest => if settled (promise f) then (f, evs) else untilSettled rest (step f ev)
  end.

End Machine.

(** A query-string reader for the examples: of the part before the first
    [#], what follows the first [?], split at [&] and at the first [=].  It
    agrees with the WHATWG parser on URLs without percent escapes and [+]. *)
Fixpoint afterChar (c : ascii) (s : string) : option string :=
  match s with
  | EmptyString => None
  | String a rest => if Ascii.eqb a c then Some rest else afterChar c rest
  end.

Fixpoint beforeChar (c : ascii) (s : string) : string :=
  match s with
  | EmptyString => EmptyString
  | String a rest => if Ascii.eqb a c then EmptyString else String a (beforeChar c rest)
  end.

Definition plainSearchParams (url : string) : JsError + list (string * string) :=
  match afterChar "?" (beforeChar "#" url) with
  | None => inr []
  | Some q =>
      inr (omap (fun seg =>
                   if truthy_str seg
                   then Some (beforeChar "=" seg, default EmptyString (afterChar "=" seg))
                   else None)
                (split "&" q))
  end.

(** What holds in every state a flow can reach: while the server listens
    nothing has been destroyed, settled or exchanged; once it does not, the
    port was released exactly once, whatever is handled afterwards; the timer
    is disarmed only by firing, which settles the promise. *)
Record Inv (f : Flow) : Prop := {
  inv_listening :
    listening f = true ->
    promise f = Pending /\ port_releases f = 0%nat /\ destroy_calls f = 0%nat /\
    exchanging f = [];
  inv_closed :
    listening f = false -> port_releases f = 1%nat /\ (1 <= destroy_calls f)%nat;
  inv_timer : timer_armed f = false -> settled (promise f) = true;
  inv_settled : settled (promise f) = true -> listening f = false;
}.

End Flow.

(** ** The OAuth2 coordinator ([AuthService]) and the environment factories *)

Module Auth.
Import Flow.

Record OAuth2Config := {
  clientId : string;
  clientSecret : string;
  redirectUri : string;
  scopes : list string;
}.

Record GmailMCPConfig := {
  oauth2 : OAuth2Config;
  tokenStoragePath : option string;
  defaultUserId : option string;
  context7Enabled : option bool;
}.

(** Where the tokens are kept: the configured path, or
    [join(homedir(), '.gmail-mcp-tokens.json')]. *)
Inductive StoragePath :=
| ConfiguredPath (p : string)
| HomeTokenFile.

(** The fields of an [AuthService]; [clientCredentials] stands for
    [oAuth2Client.credentials]. *)
Record AuthService := {
  config : OAuth2Config;
  storagePath : StoragePath;
  clientCredentials : TokenData;
}.

(** [new AuthService(config)]: no check of the configuration. *)
Definition newAuthService (c : GmailMCPConfig) : AuthService :=
  {| config := oauth2 c;
     storagePath := match truthy (tokenStoragePath c) with
                    | Some p => ConfiguredPath p
                    | None => HomeTokenFile
                    end;
     clientCredentials := noCredentials |}.

(** How a synchronous call or an awaited asynchronous call ends; [Hangs]
    is an [await] on a promise that the given schedule never settles. *)
Inductive Completion (A : Type) :=
| Returns (a : A)
| Throws (e : JsError)
| Hangs.
Arguments Returns {A} a.
Arguments Throws {A} e.
Arguments Hangs {A}.

(** [process.env]. *)
Abbreviation Environment := (gmap string string).

Definition missingVariables : string :=
  "Missing required environment variables: GOOGLE_CLIENT_ID and GOOGLE_CLIENT_SECRET".

(** The configuration both factories read, up to the [context7Enabled]
    flag they compute differently. *)
Definition configFromEnvironment (env : Environment) (context7 : bool) : GmailMCPConfig :=
  {| oauth2 :=
       {| clientId := or_default (env !! "GOOGLE_CLIENT_ID") EmptyString;
          clientSecret := or_default (env !! "GOOGLE_CLIENT_SECRET") EmptyString;
          redirectUri := or_default (env !! "GOOGLE_REDIRECT_URI")
                           "http://localhost:3000/oauth2callback";
          scopes := split ","
                      (or_default (env !! "GOOGLE_SCOPES")
                         "https://www.googleapis.com/auth/gmail.modify") |};
     tokenStoragePath := truthy (env !! "TOKEN_STORAGE_PATH");
     defaultUserId := Some (or_default (env !! "DEFAULT_USER_ID") "me");
     context7Enabled := Some context7 |}.

Definition incomplete (c : GmailMCPConfig) : bool :=
  negb (truthy_str (clientId (oauth2 c))) || negb (truthy_str (clientSecret (oauth2 c))).

(** [AuthService.fromEnvironment()]. *)
Definition fromEnvironment (env : Environment) : Completion AuthService :=
  let config :=
    configFromEnvironment env
      (bool_decide (env !! "CONTEXT7_ENABLED" = Some "true"%string)) in
  if incomplete config then Throws (AuthenticationError missingVariables)
  else Returns (newAuthService config).

(** [GmailMCPManager]: its three services ([GmailService] holds the same
    [AuthService] and the user id). *)
Record GmailMCPManager := {
  authService : AuthService;
  userId : string;
  context7Service : Context7.Context7Service;
}.

(** [new GmailMCPManager(config)]. *)
Definition newGmailMCPManager (c : GmailMCPConfig) : GmailMCPManager :=
  {| authService := newAuthService c;
     userId := default "me"%string (defaultUserId c);
     context7Service := Context7.new (context7Enabled c) |}.

(** [createFromEnvironment()] of [src/index.ts]: it throws a plain [Error]. *)
Definition createFromEnvironment (env : Environment) : Completion GmailMCPManager :=
  let config :=
    configFromEnvironment env
      (negb (bool_decide (env !! "CONTEXT7_ENABLED" = Some "false"%string))) in
  if incomplete config then Throws (PlainError missingVariables)
  else Returns (newGmailMCPManager config).

(** [getAuthenticatedClient()]: the client (here, its credentials) or an
    [AuthenticationError]. *)
Definition getAuthenticatedClient (a : AuthService) : Completion TokenData :=
  match truthy (access_token (clientCredentials a)) with
  | None =>
      Throws (AuthenticationError "No valid authentication. Please run authenticate() first.")
  | Some _ => Returns (clientCredentials a)
  end.

(** *** [authenticate()] *)

(** What [authenticate] does to the outside world, in order. *)
Inductive Effect :=
| ReadTokenFile
| WriteTokenFile (t : TokenData)
| TokenInfoRequest (token : option string)
| RefreshRequest
| StartListener
| FlowDid (e : FlowEffect).

Definition isRefresh (e : Effect) : bool :=
  match e with RefreshRequest => true | _ => false end.

(** How many token refreshes a trace contains. *)
Definition refreshes (t : list Effect) : nat := length (List.filter isRefresh t).

Definition isNetworkOrBrowser (e : Effect) : bool :=
  match e with
  | TokenInfoRequest _ | RefreshRequest | StartListener | FlowDid _ => true
  | ReadTokenFile | WriteTokenFile _ => false
  end.

(** The surroundings of one [authenticate()] call; [schedule] holds what
    happens to the interactive flow, in order, until the call returns. *)
Record World := {
  now : Z;
  tokenInfo : option string -> Outcome unit;
  refreshAccessToken : TokenData -> Outcome TokenData;
  writeFile : TokenData -> Outcome unit;
  searchParams : string -> JsError + list (string * string);
  getToken : string -> Outcome TokenData;
  schedule : list Event;
}.

(** The mutable state: the service, the parsed content of the token file
    ([None] when it cannot be read or parsed) and the effects so far. *)
Record State := {
  this : AuthService;
  tokenFile : option TokenData;
  trace : list Effect;
}.

Definition M (A : Type) : Type := State -> Completion A * State.

Definition ret {A} (a : A) : M A := fun s => (Returns a, s).
Definition throw {A} (e : JsError) : M A := fun s => (Throws e, s).
Definition bind {A B} (m : M A) (k : A -> M B) : M B :=
  fun s =>
    match m s with
    | (Returns a, s') => k a s'
    | (Throws e, s') => (Throws e, s')
    | (Hangs, s') => (Hangs, s')
    end.
Definition tryCatch {A} (m : M A) (handler : JsError -> M A) : M A :=
  fun s =>
    match m s with
    | (Throws e, s') => handler e s'
    | r => r
    end.

Notation "x <- m ;; k" := (bind m (fun x => k))
  (at level 100, m at next level, right associativity).
Notation "m ;;; k" := (bind m (fun _ => k))
  (at level 100, right associativity).

Definition emit (e : Effect) : M unit :=
  fun s => (Returns tt, {| this := this s; tokenFile := tokenFile s; trace := trace s ++ [e] |}).

Definition getCredentials : M TokenData :=
  fun s => (Returns (clientCredentials (this s)), s).

Definition setClientCredentials (t : TokenData) : M unit :=
  fun s => (Returns tt,
            {| this := {| config := config (this s); storagePath := storagePath (this s);
                          clientCredentials := t |};
               tokenFile := tokenFile s; trace := trace s |}).

Definition storeFile (t : TokenData) : M unit :=
  fun s => (Returns tt, {| this := this s; tokenFile := Some t; trace := trace s |}).

(** An awaited library promise. *)
Definition await {A} (o : Outcome A) : M A :=
  match o with
  | Fulfilled a => ret a
  | Rejects e => throw e
  end.

Section Authenticate.

Variable w : World.

(** [loadTokens()]: the parsed file, [null] on any failure. *)
Definition loadTokens : M (option TokenData) :=
  emit ReadTokenFile ;;; fun s => (Returns (tokenFile s), s).

(** [saveTokens(tokens)]; [meanwhile] is what else happens in the process
    while the write is awaited. *)
Definition saveTokens (meanwhile : M unit) (tokens : TokenData) : M unit :=
  tryCatch
    (emit (WriteTokenFile tokens) ;;;
     meanwhile ;;;
     await (writeFile w tokens) ;;;
     storeFile tokens)
    (fun error =>
       throw (AuthenticationError ("Failed to save tokens: " +:+ message_of error))).

(** [refreshToken()]. *)
Definition refreshToken : M unit :=
  tryCatch
    (emit RefreshRequest ;;;
     c <- getCredentials ;;
     refreshed <- await (refreshAccessToken w c) ;;
     setClientCredentials refreshed ;;;
     saveTokens (ret tt) refreshed)
    (fun error =>
       throw (AuthenticationError ("Token refresh failed: " +:+ message_of error))).

(** [expiryDate && expiryDate - Date.now() < 5 * 60 * 1000]. *)
Definition expiresSoon (expiryDate : option Z) : bool :=
  match expiryDate with
  | Some e => truthy_num e && (e - now w <? 5 * 60 * 1000)
  | None => false
  end.

(** [isTokenValid()]. *)
Definition isTokenValid : M bool :=
  tryCatch
    (c <- getCredentials ;;
     emit (TokenInfoRequest (access_token c)) ;;;
     await (tokenInfo w (access_token c)) ;;;
     c' <- getCredentials ;;
     (if expiresSoon (expiry_date c') then refreshToken else ret tt) ;;;
     ret true)
    (fun _ => ret false).

(** [performOAuth2Flow()] as its awaiting caller sees it: the events of the
    schedule are handled until the promise settles.  The value is the flow at
    that moment together with the events still to come; a flow that is
    settled goes on handling them, since nothing stops the handler, the calls
    in flight or the timer. *)
Definition performOAuth2Flow : M (Flow * list Event) :=
  emit StartListener ;;;
  fun s =>
    let flow := untilSettled (searchParams w) (getToken w) (schedule w)
                  (start (clientCredentials (this s))) in
    let s' := {| this := {| config := config (this s); storagePath := storagePath (this s);
                            clientCredentials := credentials flow.1 |};
                 tokenFile := tokenFile s;
                 trace := trace s ++ map FlowDid (effects flow.1) |} in
    match promise flow.1 with
    | Resolved => (Returns flow, s')
    | Rejected e => (Throws e, s')
    | Pending => (Hangs, s')
    end.

(** What a resolved flow still does while its caller awaits something
    else: the events still to come are handled.  An exchange that is
    fulfilled now replaces the client's credentials. *)
Definition background (flow : Flow * list Event) : M unit :=
  fun s =>
    let f := run (searchParams w) (getToken w) flow.2 flow.1 in
    (Returns tt,
     {| this := {| config := config (this s); storagePath := storagePath (this s);
                   clientCredentials := credentials f |};
        tokenFile := tokenFile s;
        trace := trace s ++ map FlowDid (drop (length (effects flow.1)) (effects f)) |}).

(** [authenticate()]; the returned client is the service's own.  The tokens
    handed to [saveTokens] are the credentials at the moment the flow's promise
    resolved. *)
Definition authenticate : M unit :=
  tryCatch
    (existingTokens <- loadTokens ;;
     usable <- match existingTokens with
               | Some t => setClientCredentials t ;;; isTokenValid
               | None => ret false
               end ;;
     if usable then ret tt
     else
       flow <- performOAuth2Flow ;;
       c <- getCredentials ;;
       saveTokens (background flow) c)
    (fun error =>
       throw (AuthenticationError ("Authentication failed: " +:+ message_of error))).

(** [GmailService.initialize()]: a failed authentication is rethrown as an
    [APIError] with status 500.  [GmailMCPManager.initialize()] is this call
    preceded by a documentation lookup, which touches neither the network nor
    the authentication state. *)
Definition initialize : M unit :=
  tryCatch authenticate
    (fun error =>
       throw (APIError ("Failed to initialize Gmail API: " +:+ message_of error) 500)).

End Authenticate.

Definition initial (a : AuthService) (file : option TokenData) : State :=
  {| this := a; tokenFile := file; trace := [] |}.

(** [initializeGmailManager()] of the MCP server, on its first call:
    [createFromEnvironment()], then [await gmailManager.initialize()].  How
    the awaited start-up ends, and everything it did to the outside world. *)
Definition initializeGmailManager (env : Environment) (w : World)
  (file : option TokenData) : Completion unit * list Effect :=
  match createFromEnvironment env with
  | Returns manager =>
      let '(r, s) := initialize w (initial (authService manager) file) in
      (r, trace s)
  | Throws e => (Throws e, [])
  | Hangs => (Hangs, [])
  end.

End Auth.

(** ** Concrete services, worlds and schedules used in the examples *)

Module Scenario.
Import Context7.

(** A fetch function whose promise always rejects. *)
Definition failingFetch (searchTerm : SearchTerm) : Outcome Context7Response :=
  Rejects (PlainError "Context7 unavailable").

(** An enabled service holding one entry for the key [x-y] that expired
    at time 5. *)
Definition staleService : Context7Service :=
  {| enabled := true;
     cache := {[ "x-y"%string := placeholder "Gmail API x y" ]};
     cacheExpiry := {[ "x-y"%string := 5 ]} |}.

(** The tokens the examples' token endpoint issues. *)
Definition freshTokens : Flow.TokenData :=
  {| Flow.access_token := Some "ya29.fresh"%string;
     Flow.refresh_token := Some "1//refresh"%string;
     Flow.scope := Some "https://www.googleapis.com/auth/gmail.modify"%string;
     Flow.token_type := Some "Bearer"%string;
     Flow.expiry_date := Some 3600000 |}.

(** The token endpoint of the examples: it accepts the code [abc] only. *)
Definition tokenEndpoint (code : string) : Outcome Flow.TokenData :=
  if String.eqb code "abc" then Fulfilled freshTokens
  else Rejects (PlainError "invalid_grant").

(** The path of a request URL: what precedes the query and the fragment. *)
Definition pathOf (url : string) : string :=
  Flow.beforeChar "?" (Flow.beforeChar "#" url).

(** The exit paths of the flow, each followed by the timer: code received
    and exchanged, error parameter, no code, timeout, exchange refused. *)
Definition codeReceived : list Flow.Event :=
  [Flow.Request (Some "/oauth2callback?code=abc"%string); Flow.ExchangeSettles 0; Flow.TimerFires].
Definition errorReceived : list Flow.Event :=
  [Flow.Request (Some "/oauth2callback?error=access_denied"%string); Flow.TimerFires].
Definition noCodeReceived : list Flow.Event :=
  [Flow.Request (Some "/oauth2callback"%string); Flow.TimerFires].
Definition timedOut : list Flow.Event :=
  [Flow.Request (Some "/favicon.ico"%string); Flow.TimerFires].
Definition exchangeRefused : list Flow.Event :=
  [Flow.Request (Some "/oauth2callback?code=xyz"%string); Flow.ExchangeSettles 0; Flow.TimerFires].

(** Two callback requests on one connection: the second one is handled
    after the first has destroyed the server; then the two exchanges settle in
    the order they were started. *)
Definition pipelined : list Flow.Event :=
  [Flow.Request (Some "/oauth2callback?code=abc"%string);
   Flow.Request (Some "/oauth2callback?code=xyz"%string);
   Flow.ExchangeSettles 0; Flow.ExchangeSettles 0].

(** A token endpoint that answers every code, with an access token named
    after the code. *)
Definition openEndpoint (code : string) : Outcome Flow.TokenData :=
  Fulfilled {| Flow.access_token := Some ("ya29." +:+ code);
               Flow.refresh_token := Some "1//refresh"%string;
               Flow.scope := Some "https://www.googleapis.com/auth/gmail.modify"%string;
               Flow.token_type := Some "Bearer"%string;
               Flow.expiry_date := Some 3600000 |}.

(** A stored credential that expires at [expiry]. *)
Definition storedTokens (expiry : Z) : Flow.TokenData :=
  {| Flow.access_token := Some "ya29.stored"%string;
     Flow.refresh_token := Some "1//refresh"%string;
     Flow.scope := Some "https://www.googleapis.com/auth/gmail.modify"%string;
     Flow.token_type := Some "Bearer"%string;
     Flow.expiry_date := Some expiry |}.

(** A world at time 1 000 000 ms in which every service answers. *)
Definition friendlyWorld (evs : list Flow.Event) : Auth.World :=
  {| Auth.now := 1000000;
     Auth.tokenInfo := fun _ => Fulfilled tt;
     Auth.refreshAccessToken := fun _ => Fulfilled freshTokens;
     Auth.writeFile := fun _ => Fulfilled tt;
     Auth.searchParams := Flow.plainSearchParams;
     Auth.getToken := tokenEndpoint;
     Auth.schedule := evs |}.

(** The same world, except that token introspection fails. *)
Definition strictWorld (evs : list Flow.Event) : Auth.World :=
  {| Auth.now := 1000000;
     Auth.tokenInfo := fun _ => Rejects (PlainError "invalid_token");
     Auth.refreshAccessToken := fun _ => Fulfilled freshTokens;
     Auth.writeFile := fun _ => Fulfilled tt;
     Auth.searchParams := Flow.plainSearchParams;
     Auth.getToken := tokenEndpoint;
     Auth.schedule := evs |}.

(** A configuration object without client id and secret. *)
Definition unconfigured : Auth.GmailMCPConfig :=
  {| Auth.oauth2 :=
       {| Auth.clientId := EmptyString;
          Auth.clientSecret := EmptyString;
          Auth.redirectUri := "http://localhost:3000/oauth2callback";
          Auth.scopes := ["https://www.googleapis.com/auth/gmail.modify"%string] |};
     Auth.tokenStoragePath := None;
     Auth.defaultUserId := None;
     Auth.context7Enabled := None |}.

(** A complete configuration. *)
Definition configured : Auth.GmailMCPConfig :=
  {| Auth.oauth2 :=
       {| Auth.clientId := "id.apps.googleusercontent.com";
          Auth.clientSecret := "secret";
          Auth.redirectUri := "http://localhost:3000/oauth2callback";
          Auth.scopes := ["https://www.googleapis.com/auth/gmail.modify"%string] |};
     Auth.tokenStoragePath := None;
     Auth.defaultUserId := None;
     Auth.context7Enabled := None |}.

(** A world whose token file cannot be written. *)
Definition readOnlyWorld (evs : list Flow.Event) : Auth.World :=
  {| Auth.now := 1000000;
     Auth.tokenInfo := fun _ => Fulfilled tt;
     Auth.refreshAccessToken := fun _ => Fulfilled freshTokens;
     Auth.writeFile := fun _ => Rejects (PlainError "EACCES: permission denied");
     Auth.searchParams := Flow.plainSearchParams;
     Auth.getToken := tokenEndpoint;
     Auth.schedule := evs |}.

End Scenario.

(** ** The rest of the Context7 service: display helpers and histories *)

Module Context7More.
Import Context7.

(** The line-feed character. *)
Definition LF : ascii := ascii_of_nat 10.
Definition nl : string := String LF EmptyString.

(** [formatDocumentationForTerminal(doc)]: three spaces before each line. *)
Definition formatDocumentationForTerminal (doc : string) : string :=
  join nl (map (fun line => "   " +:+ line) (split LF doc)).

(** [l.forEach((x, index) => comments += f(x, index))]. *)
Fixpoint forEachIndexed {A} (f : A -> nat -> string) (l : list A) (index : nat)
  (comments : string) : string :=
  match l with
  | [] => comments
  | x :: rest => forEachIndexed f rest (S index) (comments +:+ f x index)
  end.

(** [getAsCodeComments(documentation)]; the argument may be [null]. *)
Definition getAsCodeComments (documentation : option Context7Response) : string :=
  match documentation with
  | None => EmptyString
  | Some d =>
      let comments := "/**" +:+ nl in
      let comments := comments +:+ " * CONTEXT7 DOCUMENTATION" +:+ nl in
      let comments := comments +:+ " * " +:+ nl in
      let comments :=
        if truthy_str (Context7.documentation d) then
          let comments := comments +:+ " * Documentation:" +:+ nl in
          let comments :=
            forEachIndexed (fun line _ => " * " +:+ line +:+ nl)
              (split LF (Context7.documentation d)) 0 comments in
          comments +:+ " * " +:+ nl
        else comments in
      let comments :=
        match examples d with
        | [] => comments
        | _ :: _ =>
            let comments := comments +:+ " * Examples:" +:+ nl in
            let comments :=
              forEachIndexed
                (fun example index => " * " +:+ pretty (index + 1)%nat +:+ ". " +:+ example +:+ nl)
                (examples d) 0 comments in
            comments +:+ " * " +:+ nl
        end in
      let comments :=
        match relevantLinks d with
        | [] => comments
        | _ :: _ =>
            let comments := comments +:+ " * Relevant Links:" +:+ nl in
            forEachIndexed (fun link _ => " * - " +:+ link +:+ nl)
              (relevantLinks d) 0 comments
        end in
      comments +:+ " */"
  end.

(** The lines the comment block is meant to consist of, one list entry per
    line: the reading of [getAsCodeComments] that its output is compared
    with. *)
Definition commentLines (d : Context7Response) : list string :=
  ["/**"; " * CONTEXT7 DOCUMENTATION"; " * "]%string
  ++ (if truthy_str (Context7.documentation d)
      then [" * Documentation:"%string]
           ++ map (fun line => " * " +:+ line) (split LF (Context7.documentation d))
           ++ [" * "%string]
      else [])
  ++ (match examples d with
      | [] => []
      | _ :: _ =>
          [" * Examples:"%string]
          ++ imap (fun index example => " * " +:+ pretty (index + 1)%nat +:+ ". " +:+ example)
               (examples d)
          ++ [" * "%string]
      end)
  ++ (match relevantLinks d with
      | [] => []
      | _ :: _ =>
          [" * Relevant Links:"%string]
          ++ map (fun link => " * - " +:+ link) (relevantLinks d)
      end)
  ++ [" */"%string].

(** A string without line feed. *)
Definition oneLine (s : string) : Prop := includes s nl = false.

(** A string that does not contain the character [sep]. *)
Fixpoint free (sep : ascii) (s : string) : Prop :=
  match s with
  | EmptyString => True
  | String c rest => c <> sep /\ free sep rest
  end.

(** The text of a list of lines, each one ended by a line feed. *)
Definition block (lines : list string) : string := join nl lines +:+ nl.

(** The two maps of a service hold the same keys. *)
Definition inStep (s : Context7Service) : Prop := dom (cache s) = dom (cacheExpiry s).

(** What a user of the service object can do to it. *)
Inductive Op :=
| Lookup (r : Request)
| SetEnabled (b : bool)
| ClearCache.

Section History.

Variable fetch : SearchTerm -> Outcome Context7Response.

Definition apply (s : Context7Service) (op : Op) : Context7Service :=
  match op with
  | Lookup r =>
      service (getRelevantDocumentation fetch (asked_at r) (stored_at r)
                 (operation r) (context r) s)
  | SetEnabled b => setEnabled b s
  | ClearCache => clearCache s
  end.

(** The service after a sequence of operations. *)
Definition history (ops : list Op) (s : Context7Service) : Context7Service :=
  fold_left apply ops s.

End History.

End Context7More.

(** ** The rest of [AuthService]: [getTokenInfo] and [logout] *)

Module Account.
Import Flow Auth.

Section TokenInfo.

Variable w : World.

(** [getTokenInfo()]: the missing-token error is thrown inside the [try]
    block and so is wrapped like every other failure. *)
Definition getTokenInfo : M unit :=
  tryCatch
    (c <- getCredentials ;;
     match truthy (access_token c) with
     | None => throw (AuthenticationError "No access token available")
     | Some token =>
         emit (TokenInfoRequest (Some token)) ;;;
         await (tokenInfo w (Some token))
     end)
    (fun error =>
       throw (AuthenticationError ("Failed to get token info: " +:+ message_of error))).

End TokenInfo.

(** What [logout] does to the outside world. *)
Inductive LogoutEffect :=
| RevokeRequest (token : string)
| UnlinkTokenFile.

(** The surroundings of one [logout()] call: how the revocation request
    ends and which credentials the OAuth2 client holds after it, and whether
    [fs.unlink] succeeds. *)
Record LogoutWorld := {
  revokeCredentials : TokenData -> Outcome unit * TokenData;
  unlink : Outcome unit;
}.

(** The local part of [logout()]: remove the token file, ignoring a failure
    to do so, and clear the credentials in memory. *)
Definition clearLocal (lw : LogoutWorld) (s : State) : State :=
  {| this := {| config := config (this s); storagePath := storagePath (this s);
                clientCredentials := noCredentials |};
     tokenFile := match unlink lw with
                  | Fulfilled _ => None
                  | Rejects _ => tokenFile s
                  end;
     trace := trace s |}.

(** [logout()]: the result, the state after it, and what was done. *)
Definition logout (lw : LogoutWorld) (s : State)
  : Completion unit * State * list LogoutEffect :=
  match truthy (access_token (clientCredentials (this s))) with
  | Some token =>
      match revokeCredentials lw (clientCredentials (this s)) with
      | (Fulfilled _, after) =>
          (Returns tt, clearLocal lw s, [RevokeRequest token; UnlinkTokenFile])
      | (Rejects error, after) =>
          (Throws (AuthenticationError ("Logout failed: " +:+ message_of error)),
           {| this := {| config := config (this s); storagePath := storagePath (this s);
                         clientCredentials := after |};
              tokenFile := tokenFile s;
              trace := trace s |},
           [RevokeRequest token])
      end
  | None => (Returns tt, clearLocal lw s, [UnlinkTokenFile])
  end.

End Account.

(** ** Concrete surroundings of [logout] used in the examples *)

Module LogoutScenario.
Import Flow Auth Account Scenario.

(** The revocation endpoint answers; the library has cleared the client's
    credentials. *)
Definition revoking : LogoutWorld :=
  {| revokeCredentials := fun _ => (Fulfilled tt, noCredentials);
     unlink := Fulfilled tt |}.

(** The revocation endpoint cannot be reached. *)
Definition offline : LogoutWorld :=
  {| revokeCredentials := fun c => (Rejects (PlainError "getaddrinfo ENOTFOUND"), c);
     unlink := Fulfilled tt |}.

(** A service that has authenticated from the stored credential. *)
Definition signedIn : State :=
  {| this := {| config := oauth2 configured; storagePath := HomeTokenFile;
                clientCredentials := storedTokens 9000000 |};
     tokenFile := Some (storedTokens 9000000);
     trace := [] |}.

End LogoutScenario.

(** ** What a flow has exchanged *)

Module FlowMore.
Import Flow.

Definition isRequest (ev : Event) : bool :=
  match ev with Request _ => true | _ => false end.

(** How many requests a schedule hands to the handler. *)
Definition requests (evs : list Event) : nat := length (List.filter isRequest evs).

Section Exchanges.

Variable searchParams : string -> JsError + list (string * string).
Variable getToken : string -> Outcome TokenData.

(** The credentials the client held when the flow started. *)
Variable before : TokenData.

(** The code [code] was delivered by a callback request of the schedule:
    a request whose URL contains [/oauth2callback], with that non-empty [code]
    parameter and no non-empty [error] parameter. *)
Definition delivered (evs : list Event) (code : string) : Prop :=
  exists url qs,
    In (Request (Some url)) evs /\
    includes url "/oauth2callback" = true /\
    searchParams url = inr qs /\
    truthy (get "error" qs) = None /\
    truthy (get "code" qs) = Some code.

(** The token endpoint issued the credentials [c] for a code that the flow
    [f] has exchanged. *)
Definition issued (f : Flow) (c : TokenData) : Prop :=
  exists code, In (TokenExchange code) (effects f) /\ getToken code = Fulfilled c.

(** What holds of the exchanges in every state reached by the schedule
    [evs]: the effects are the browser launch followed by exchanges of
    delivered codes, never more than there were requests; a call in flight is
    one of these exchanges; the client holds its old credentials or issued
    ones; a resolved promise means that it holds issued ones. *)
Record Exchanged (evs : list Event) (f : Flow) : Prop := {
  ex_effects :
    exists codes,
      effects f = OpenBrowser :: map TokenExchange codes /\
      Forall (delivered evs) codes /\
      (length codes <= requests evs)%nat;
  ex_flight :
    forall code, In code (exchanging f) -> In (TokenExchange code) (effects f);
  ex_credentials : credentials f = before \/ issued f (credentials f);
  ex_resolved : promise f = Resolved -> issued f (credentials f);
}.

End Exchanges.

End FlowMore.

(** ** The Gmail service ([GmailService] of [src/gmail.service.ts]):
       batch operations and raw messages *)

Module Gmail.
Import Flow Auth.

(** The requests of [performBatchOperation] to the Gmail API; an absent
    field of the request body is [None]. *)
Inductive ApiCall :=
| BatchModify (userId : string) (ids : list string)
    (addLabelIds removeLabelIds : option (list string))
| Trash (userId : string) (id : string).

(** The message ids a request names. *)
Definition idsOf (c : ApiCall) : list string :=
  match c with
  | BatchModify _ ids _ _ => ids
  | Trash _ id => [id]
  end.

(** An error thrown by the API client: its [message] and [status], each
    possibly absent. *)
Record ApiError := {
  error_message : option string;
  error_status : option Z;
}.

(** What the [try] block of an operation can throw: an error of the API
    client, or one of the package's own errors (which has a [statusCode] but no
    [status]). *)
Inductive Thrown :=
| FromApi (e : ApiError)
| Own (e : JsError).

(** [error.message || 'Unknown error'] and [error.status || 500]. *)
Definition messageOr (t : Thrown) : string :=
  match t with
  | FromApi e => or_default (error_message e) "Unknown error"
  | Own e => or_default (Some (message_of e)) "Unknown error"
  end.

Definition statusOr (t : Thrown) : Z :=
  match t with
  | FromApi e =>
      match error_status e with
      | Some z => if truthy_num z then z else 500
      | None => 500
      end
  | Own _ => 500
  end.

(** [BatchOperation] of [src/types.ts]; the action is whatever string the
    caller passed. *)
Record BatchOperation := {
  messageIds : list string;
  action : string;
  labelIds : option (list string);
}.

(** The service object: the authentication state, whether [this.gmail] has
    been set, the user id, and the requests sent so far. *)
Record Service := {
  auth : State;
  gmail : bool;
  userId : string;
  sent : list ApiCall;
}.

Section Operations.

Variable w : World.

(** How the Gmail API answers a request: [None] when it succeeds. *)
Variable api : ApiCall -> option ApiError.

(** The [try] block of an operation: the requests sent so far go in, the
    outcome and the requests sent come out. *)
Definition Try (A : Type) : Type := list ApiCall -> (Thrown + A) * list ApiCall.

Definition done {A} (a : A) : Try A := fun calls => (inr a, calls).
Definition raise {A} (t : Thrown) : Try A := fun calls => (inl t, calls).
Definition andThen {A B} (m : Try A) (k : A -> Try B) : Try B :=
  fun calls =>
    match m calls with
    | (inr a, calls') => k a calls'
    | (inl t, calls') => (inl t, calls')
    end.

(** One awaited request. *)
Definition request (c : ApiCall) : Try unit :=
  fun calls =>
    match api c with
    | None => (inr tt, calls ++ [c])
    | Some e => (inl (FromApi e), calls ++ [c])
    end.

(** [for (const messageId of messageIds) await ...trash(...)]. *)
Fixpoint trashEach (user : string) (ids : list string) : Try unit :=
  match ids with
  | [] => done tt
  | id :: rest => andThen (request (Trash user id)) (fun _ => trashEach user rest)
  end.

(** The [switch] of [performBatchOperation]. *)
Definition switchAction (user : string) (operation : BatchOperation) : Try unit :=
  let ids := messageIds operation in
  if String.eqb (action operation) "read" then
    request (BatchModify user ids None (Some ["UNREAD"%string]))
  else if String.eqb (action operation) "unread" then
    request (BatchModify user ids (Some ["UNREAD"%string]) None)
  else if String.eqb (action operation) "archive" then
    request (BatchModify user ids None (Some ["INBOX"%string]))
  else if String.eqb (action operation) "delete" then
    request (BatchModify user ids (Some ["TRASH"%string]) (Some ["INBOX"%string]))
  else if String.eqb (action operation) "trash" then
    trashEach user ids
  else if String.eqb (action operation) "spam" then
    request (BatchModify user ids (Some ["SPAM"%string]) (Some ["INBOX"%string]))
  else
    raise (Own (APIError ("Unknown action: " +:+ action operation) 400)).

(** The whole [try] block: the switch, then the additional labels. *)
Definition batchBody (user : string) (operation : BatchOperation) : Try unit :=
  andThen (switchAction user operation) (fun _ =>
    match labelIds operation with
    | Some (l :: ls) =>
        request (BatchModify user (messageIds operation) (Some (l :: ls)) None)
    | _ => done tt
    end).

(** [GmailService.initialize()] on the service object: [this.gmail] is set
    once authentication has succeeded. *)
Definition initializeService (g : Service) : Completion unit * Service :=
  match initialize w (auth g) with
  | (Returns _, s) =>
      (Returns tt, {| auth := s; gmail := true; userId := userId g; sent := sent g |})
  | (Throws e, s) =>
      (Throws e, {| auth := s; gmail := gmail g; userId := userId g; sent := sent g |})
  | (Hangs, s) =>
      (Hangs, {| auth := s; gmail := gmail g; userId := userId g; sent := sent g |})
  end.

(** [ensureInitialized()]. *)
Definition ensureInitialized (g : Service) : Completion unit * Service :=
  if gmail g then (Returns tt, g) else initializeService g.

(** [performBatchOperation(operation)]. *)
Definition performBatchOperation (operation : BatchOperation) (g : Service)
  : Completion unit * Service :=
  match ensureInitialized g with
  | (Returns _, g1) =>
      match batchBody (userId g1) operation (sent g1) with
      | (inr _, calls) =>
          (Returns tt,
           {| auth := auth g1; gmail := gmail g1; userId := userId g1; sent := calls |})
      | (inl error, calls) =>
          (Throws (APIError
                     ("Failed to perform batch operation: " +:+ messageOr error)
                     (statusOr error)),
           {| auth := auth g1; gmail := gmail g1; userId := userId g1; sent := calls |})
      end
  | (Throws e, g1) => (Throws e, g1)
  | (Hangs, g1) => (Hangs, g1)
  end.

End Operations.

(** The six actions the [switch] knows. *)
Definition knownActions : list string :=
  ["read"; "unread"; "archive"; "delete"; "trash"; "spam"]%string.

End Gmail.

(** ** Concrete services and API answers used in the Gmail examples *)

Module GmailScenario.
Import Flow Auth Gmail Scenario LogoutScenario.

(** An initialized service for the user [me]. *)
Definition ready : Service :=
  {| auth := signedIn; gmail := true; userId := "me"; sent := [] |}.

(** A service that has not been initialized and has no stored tokens. *)
Definition fresh : Service :=
  {| auth := initial (newAuthService configured) None;
     gmail := false; userId := "me"; sent := [] |}.

(** An API that answers every request. *)
Definition obliging (c : ApiCall) : option ApiError := None.

(** An API that cannot find the message [m3]. *)
Definition missing_m3 (c : ApiCall) : option ApiError :=
  match c with
  | Trash _ id =>
      if String.eqb id "m3"
      then Some {| error_message := Some "Requested entity was not found."%string;
                   error_status := Some 404 |}
      else None
  | _ => None
  end.

Definition trashFour : BatchOperation :=
  {| messageIds := ["m1"; "m2"; "m3"; "m4"]%string;
     action := "trash";
     labelIds := Some ["Label_1"%string] |}.

Definition purge : BatchOperation :=
  {| messageIds := ["m1"]%string; action := "purge"; labelIds := None |}.



End GmailScenario.

(** ** Raw messages ([GmailService.createRawMessage]) *)

Module Mime.
Import Context7More.

(** [EmailAttachment] and [EmailComposition] of [src/types.ts].  Strings are
    the byte sequences of their UTF-8 encoding, which is what
    [Buffer.from(..)] turns them into; the content of an attachment is its
    bytes, whether it was given as a string or as a [Buffer]. *)
Record EmailAttachment := {
  filename : string;
  content : string;
  contentType : string;
}.

Record EmailComposition := {
  to : list string;
  cc : option (list string);
  bcc : option (list string);
  subject : string;
  body : string;
  isHtml : option bool;
  attachments : option (list EmailAttachment);
}.

Definition CRLF : string := String (ascii_of_nat 13) (String (ascii_of_nat 10) EmptyString).

(** The 64 digits of base64, [Buffer]'s alphabet. *)
Definition alphabet : string :=
  "ABCDEFGHIJKLMNOPQRSTUVWXYZabcdefghijklmnopqrstuvwxyz0123456789+/".

Definition digit (i : N) : ascii :=
  match String.get (N.to_nat i) alphabet with
  | Some c => c
  | None => "A"%char
  end.

(** The four digits of three bytes, by their 24-bit value. *)
Definition bits (a b c : ascii) : N :=
  (N_of_ascii a * 65536 + N_of_ascii b * 256 + N_of_ascii c)%N.
Definition digit0 (n : N) : ascii := digit (n / 262144)%N.
Definition digit1 (n : N) : ascii := digit ((n / 4096) mod 64)%N.
Definition digit2 (n : N) : ascii := digit ((n / 64) mod 64)%N.
Definition digit3 (n : N) : ascii := digit (n mod 64)%N.

(** [buffer.toString('base64')]: padded base64 of a byte sequence. *)
Fixpoint base64 (s : string) : string :=
  match s with
  | EmptyString => EmptyString
  | String a EmptyString =>
      let n := bits a zero zero in
      String (digit0 n) (String (digit1 n) "==")
  | String a (String b EmptyString) =>
      let n := bits a b zero in
      String (digit0 n) (String (digit1 n) (String (digit2 n) "="))
  | String a (String b (String c rest)) =>
      let n := bits a b c in
      String (digit0 n) (String (digit1 n) (String (digit2 n) (String (digit3 n)
        (base64 rest))))
  end.

(** [s.replace(/x/g, 'y')] for single characters. *)
Fixpoint replaceAll (x y : ascii) (s : string) : string :=
  match s with
  | EmptyString => EmptyString
  | String c rest => String (if Ascii.eqb c x then y else c) (replaceAll x y rest)
  end.

(** [s.replace(/x+$/, '')]: the string without its trailing run of [x]. *)
Fixpoint stripTrailing (x : ascii) (s : string) : string :=
  match s with
  | EmptyString => EmptyString
  | String c rest =>
      match stripTrailing x rest with
      | EmptyString => if Ascii.eqb c x then EmptyString else String c EmptyString
      | kept => String c kept
      end
  end.

(** [email.isHtml ? 'text/html' : 'text/plain']. *)
Definition textType (email : EmailComposition) : string :=
  match isHtml email with
  | Some true => "text/html"
  | _ => "text/plain"
  end.

(** [`boundary_${Date.now()}_${Math.random().toString(36).substr(2, 9)}`];
    [random] stands for the nine characters taken from the random number. *)
Definition boundaryOf (now : Z) (random : string) : string :=
  "boundary_" +:+ pretty now +:+ "_" +:+ random.

(** One attachment part. *)
Definition attachmentPart (boundary : string) (attachment : EmailAttachment) : string :=
  "--" +:+ boundary +:+ CRLF
  +:+ "Content-Type: " +:+ contentType attachment +:+ "; name=" +:+ Context7.dq
      +:+ filename attachment +:+ Context7.dq +:+ CRLF
  +:+ "Content-Disposition: attachment; filename=" +:+ Context7.dq
      +:+ filename attachment +:+ Context7.dq +:+ CRLF
  +:+ "Content-Transfer-Encoding: base64" +:+ CRLF +:+ CRLF
  +:+ base64 (content attachment) +:+ CRLF +:+ CRLF.

(** The MIME text that [createRawMessage] builds in [message]. *)
Definition mimeMessage (now : Z) (random : string) (email : EmailComposition) : string :=
  let boundary := boundaryOf now random in
  let message := "To: " +:+ join ", " (to email) +:+ CRLF in
  let message :=
    match cc email with
    | Some (c :: cs) => message +:+ "Cc: " +:+ join ", " (c :: cs) +:+ CRLF
    | _ => message
    end in
  let message :=
    match bcc email with
    | Some (c :: cs) => message +:+ "Bcc: " +:+ join ", " (c :: cs) +:+ CRLF
    | _ => message
    end in
  let message := message +:+ "Subject: " +:+ subject email +:+ CRLF in
  let message := message +:+ "MIME-Version: 1.0" +:+ CRLF in
  match attachments email with
  | Some (a :: others) =>
      let message :=
        message +:+ "Content-Type: multipart/mixed; boundary=" +:+ Context7.dq
        +:+ boundary +:+ Context7.dq +:+ CRLF +:+ CRLF in
      let message := message +:+ "--" +:+ boundary +:+ CRLF in
      let message :=
        message +:+ "Content-Type: " +:+ textType email +:+ "; charset=" +:+ Context7.dq
        +:+ "UTF-8" +:+ Context7.dq +:+ CRLF in
      let message :=
        message +:+ "Content-Transfer-Encoding: quoted-printable" +:+ CRLF +:+ CRLF in
      let message := message +:+ body email +:+ CRLF +:+ CRLF in
      let message :=
        fold_left (fun message attachment => message +:+ attachmentPart boundary attachment)
          (a :: others) message in
      message +:+ "--" +:+ boundary +:+ "--" +:+ CRLF
  | _ =>
      let message :=
        message +:+ "Content-Type: " +:+ textType email +:+ "; charset=" +:+ Context7.dq
        +:+ "UTF-8" +:+ Context7.dq +:+ CRLF in
      let message :=
        message +:+ "Content-Transfer-Encoding: quoted-printable" +:+ CRLF +:+ CRLF in
      message +:+ body email +:+ CRLF
  end.

(** The last line of [createRawMessage]: base64, then [+] to [-], [/] to
    [_], and the padding removed. *)
Definition toBase64Url (message : string) : string :=
  stripTrailing "=" (replaceAll "/" "_" (replaceAll "+" "-" (base64 message))).

(** [createRawMessage(email)]. *)
Definition createRawMessage (now : Z) (random : string) (email : EmailComposition) : string :=
  toBase64Url (mimeMessage now random email).

(** The characters of a URL-safe base64 text: letters, digits, [-] and [_]. *)
Definition urlSafe (c : ascii) : bool :=
  let n := nat_of_ascii c in
  ((65 <=? n) && (n <=? 90) || (97 <=? n) && (n <=? 122) || (48 <=? n) && (n <=? 57)
   || (n =? 45) || (n =? 95))%nat.

Fixpoint allChars (p : ascii -> bool) (s : string) : bool :=
  match s with
  | EmptyString => true
  | String c rest => p c && allChars p rest
  end.

(** The URL-safe digit of a six-bit value, and the value of a digit. *)
Definition urlDigit (i : N) : ascii :=
  let c := digit i in
  if Ascii.eqb c "+" then "-"%char else if Ascii.eqb c "/" then "_"%char else c.

Definition valueOf (c : ascii) : N :=
  let n := N_of_ascii c in
  if ((65 <=? n) && (n <=? 90))%N then (n - 65)%N
  else if ((97 <=? n) && (n <=? 122))%N then (n - 71)%N
  else if ((48 <=? n) && (n <=? 57))%N then (n + 4)%N
  else if (n =? 45)%N then 62%N
  else 63%N.

(** Unpadded URL-safe base64, written directly; the reading that
    [toBase64Url] is compared with. *)
Fixpoint base64url (s : string) : string :=
  match s with
  | EmptyString => EmptyString
  | String a EmptyString =>
      let n := bits a zero zero in
      String (urlDigit (n / 262144)) (String (urlDigit ((n / 4096) mod 64)) EmptyString)
  | String a (String b EmptyString) =>
      let n := bits a b zero in
      String (urlDigit (n / 262144)) (String (urlDigit ((n / 4096) mod 64))
        (String (urlDigit ((n / 64) mod 64)) EmptyString))
  | String a (String b (String c rest)) =>
      let n := bits a b c in
      String (urlDigit (n / 262144)) (String (urlDigit ((n / 4096) mod 64))
        (String (urlDigit ((n / 64) mod 64)) (String (urlDigit (n mod 64))
          (base64url rest))))
  end%N.

(** Decoding unpadded URL-safe base64 (RFC 4648), as the Gmail API does with
    the [raw] field. *)
Definition byteOf (n : N) : ascii := ascii_of_N (n mod 256).

Fixpoint decodeBase64Url (s : string) : string :=
  match s with
  | String c0 (String c1 EmptyString) =>
      let n := (valueOf c0 * 262144 + valueOf c1 * 4096)%N in
      String (byteOf (n / 65536)) EmptyString
  | String c0 (String c1 (String c2 EmptyString)) =>
      let n := (valueOf c0 * 262144 + valueOf c1 * 4096 + valueOf c2 * 64)%N in
      String (byteOf (n / 65536)) (String (byteOf (n / 256)) EmptyString)
  | String c0 (String c1 (String c2 (String c3 rest))) =>
      let n := (valueOf c0 * 262144 + valueOf c1 * 4096 + valueOf c2 * 64 + valueOf c3)%N in
      String (byteOf (n / 65536)) (String (byteOf (n / 256)) (String (byteOf n)
        (decodeBase64Url rest)))
  | _ => EmptyString
  end.

End Mime.

(** * Properties *)

(** ** Strings *)

Lemma prefix_refl (s : string) : String.prefix s s = true.
Proof.
  induction s as [|c s IH]; simpl; [reflexivity|].
  destruct (ascii_dec c c); [exact IH | congruence].
Qed.

Lemma includes_unfold (hay needle : string) :
  includes hay needle =
  String.prefix needle hay ||
  match hay with
  | EmptyString => false
  | String _ rest => includes rest needle
  end.
Proof. destruct hay; reflexivity. Qed.

(** A string that ends in [needle] includes it. *)
Lemma includes_suffix (before needle : string) :
  includes (before +:+ needle) needle = true.
Proof.
  induction before as [|c before IH].
  - change (EmptyString +:+ needle) with needle.
    rewrite includes_unfold, prefix_refl. reflexivity.
  - change (String c before +:+ needle) with (String c (before +:+ needle)).
    rewrite includes_unfold, IH. apply orb_true_r.
Qed.

(** ** The documentation cache *)

Module Context7Facts.
Import Context7.

Section WithFetch.

Variable fetch : SearchTerm -> Outcome Context7Response.

Lemma cache_duration_value : CACHE_DURATION = 1800000.
Proof. reflexivity. Qed.

(** A live entry is returned as it is, and the service is left alone. *)
Lemma getCachedResponse_live now key s :
  live now (cache s !! key) (cacheExpiry s !! key) = true ->
  getCachedResponse now key s = (s, cache s !! key).
Proof. intros H. unfold getCachedResponse. rewrite H. reflexivity. Qed.

(** Without a live entry the lookup answers [null] and leaves no value
    under the key. *)
Lemma getCachedResponse_miss now key s :
  live now (cache s !! key) (cacheExpiry s !! key) = false ->
  (getCachedResponse now key s).2 = None /\
  cache (getCachedResponse now key s).1 !! key = None /\
  enabled (getCachedResponse now key s).1 = enabled s.
Proof.
  intros H. unfold getCachedResponse. rewrite H.
  destruct (cache s !! key) eqn:E; simpl.
  - split; [reflexivity|]. split; [apply lookup_delete_eq | reflexivity].
  - split; [reflexivity|]. split; [exact E | reflexivity].
Qed.

(** Keys other than the one looked up are never touched by a lookup. *)
Lemma getCachedResponse_other now key k s :
  k <> key ->
  cache (getCachedResponse now key s).1 !! k = cache s !! k /\
  cacheExpiry (getCachedResponse now key s).1 !! k = cacheExpiry s !! k.
Proof.
  intros Hne. unfold getCachedResponse.
  destruct (live now (cache s !! key) (cacheExpiry s !! key)); [done|].
  destruct (cache s !! key); simpl; [|done].
  rewrite !lookup_delete_ne by congruence. done.
Qed.

(** A lookup changes the service only by evicting a stale value. *)
Lemma getCachedResponse_absent now key s :
  cache s !! key = None -> getCachedResponse now key s = (s, None).
Proof.
  intros H. unfold getCachedResponse. rewrite H. simpl. reflexivity.
Qed.

Lemma live_spec now c e :
  live now (Some c) (Some e) = true <-> e <> 0 /\ now < e.
Proof.
  unfold live, truthy_num. rewrite andb_true_iff, negb_true_iff.
  rewrite Z.eqb_neq, Z.ltb_lt. reflexivity.
Qed.

(** A call that finds a live entry returns it and fetches nothing. *)
Lemma getRelevantDocumentation_hit now later operation context s doc e :
  enabled s = true ->
  cache s !! cacheKey operation context = Some doc ->
  cacheExpiry s !! cacheKey operation context = Some e ->
  e <> 0 -> now < e ->
  getRelevantDocumentation fetch now later operation context s =
    {| service := s; result := Some doc; fetched := [] |}.
Proof.
  intros Hen Hc He Hnz Hlt. unfold getRelevantDocumentation.
  rewrite Hen. simpl.
  rewrite getCachedResponse_live.
  - rewrite Hc. reflexivity.
  - rewrite Hc, He. apply live_spec. done.
Qed.

(** A call that finds no live entry hands exactly one search term to the
    fetch function; a fulfilled fetch is stored with expiry
    [later + CACHE_DURATION]. *)
Lemma getRelevantDocumentation_fetch now later operation context s doc :
  enabled s = true ->
  live now (cache s !! cacheKey operation context)
           (cacheExpiry s !! cacheKey operation context) = false ->
  fetch (mapOperationToSearchTerm operation context) = Fulfilled doc ->
  let c := getRelevantDocumentation fetch now later operation context s in
  result c = Some doc /\
  fetched c = [mapOperationToSearchTerm operation context] /\
  enabled (service c) = true /\
  cache (service c) !! cacheKey operation context = Some doc /\
  cacheExpiry (service c) !! cacheKey operation context = Some (later + CACHE_DURATION).
Proof.
  intros Hen Hlive Hf. unfold getRelevantDocumentation.
  rewrite Hen. simpl.
  destruct (getCachedResponse_miss now _ s Hlive) as (Hnone & _ & Hen').
  destruct (getCachedResponse now (cacheKey operation context) s) as [s1 cached].
  simpl in *. subst cached. rewrite Hf. simpl.
  repeat split; [congruence | apply lookup_insert_eq | apply lookup_insert_eq].
Qed.

(** An entry whose expiry has been reached is not live. *)
Lemma expired_not_live now c e : e <= now -> live now (Some c) (Some e) = false.
Proof.
  intros H. unfold live. apply andb_false_iff. right. apply Z.ltb_ge. exact H.
Qed.

End WithFetch.

End Context7Facts.

Module Context7Claims.
Import Context7 Context7Facts Scenario.

(** C5.  With the cache enabled and no live entry for the key of
    (operation, context): the first call fetches and stores the documentation
    at time [t1]; a second call for the same pair at any time [t2] before
    [t1 + CACHE_DURATION] (30 minutes) is served from the cache, so the two
    calls hand exactly one search term to the fetch function in total; a
    third call at a time [t3] at or after [t1 + CACHE_DURATION] fetches
    again, which makes two fetches in all. *)
Theorem C5_one_fetch_per_cache_duration
  (fetch : SearchTerm -> Outcome Context7Response) (s : Context7Service)
  (operation : string) (context : option string) (doc : Context7Response)
  (t0 t1 t2 t2' t3 t3' : Z) :
  enabled s = true ->
  live t0 (cache s !! cacheKey operation context)
          (cacheExpiry s !! cacheKey operation context) = false ->
  fetch (mapOperationToSearchTerm operation context) = Fulfilled doc ->
  0 <= t1 ->
  t2 < t1 + CACHE_DURATION ->
  t1 + CACHE_DURATION <= t3 ->
  let c1 := getRelevantDocumentation fetch t0 t1 operation context s in
  let c2 := getRelevantDocumentation fetch t2 t2' operation context (service c1) in
  let c3 := getRelevantDocumentation fetch t3 t3' operation context (service c2) in
  result c1 = Some doc /\
  result c2 = Some doc /\
  length (fetched c1 ++ fetched c2) = 1%nat /\
  result c3 = Some doc /\
  length (fetched c1 ++ fetched c2 ++ fetched c3) = 2%nat.
Proof.
  intros Hen Hlive Hf Ht1 Ht2 Ht3 c1 c2 c3.
  destruct (getRelevantDocumentation_fetch fetch t0 t1 operation context s doc
              Hen Hlive Hf) as (Hr1 & Hf1 & Hen1 & Hc1 & He1).
  fold c1 in Hr1, Hf1, Hen1, Hc1, He1.
  assert (Hnz : t1 + CACHE_DURATION <> 0) by (rewrite cache_duration_value; lia).
  assert (H2 : c2 = {| service := service c1; result := Some doc; fetched := [] |}).
  { subst c2. eapply getRelevantDocumentation_hit; eauto. }
  assert (Hs2 : service c2 = service c1) by (rewrite H2; reflexivity).
  assert (Hlive3 : live t3 (cache (service c2) !! cacheKey operation context)
                     (cacheExpiry (service c2) !! cacheKey operation context) = false).
  { rewrite Hs2, Hc1, He1. apply expired_not_live. exact Ht3. }
  destruct (getRelevantDocumentation_fetch fetch t3 t3' operation context (service c2) doc)
    as (Hr3 & Hf3 & _); [rewrite Hs2; exact Hen1 | exact Hlive3 | exact Hf |].
  fold c3 in Hr3, Hf3.
  rewrite Hf1, Hf3, H2. simpl. repeat split; assumption.
Qed.

(** The source's own mock fetch on a fresh service: calls at 0 ms (stored at
    100 ms), at 1000 ms, and at 1 800 100 ms. *)
Lemma C5_one_fetch_per_cache_duration_witness :
  let c1 := getRelevantDocumentation fetchFromContext7 0 100 "x" (Some "y"%string) (new None) in
  let c2 := getRelevantDocumentation fetchFromContext7 1000 1100 "x" (Some "y"%string) (service c1) in
  let c3 := getRelevantDocumentation fetchFromContext7 1800100 1800200 "x" (Some "y"%string)
              (service c2) in
  result c1 = Some (getMockDocumentation "Gmail API x y") /\
  result c2 = Some (getMockDocumentation "Gmail API x y") /\
  length (fetched c1 ++ fetched c2) = 1%nat /\
  result c3 = Some (getMockDocumentation "Gmail API x y") /\
  length (fetched c1 ++ fetched c2 ++ fetched c3) = 2%nat.
Proof.
  apply (C5_one_fetch_per_cache_duration fetchFromContext7 (new None) "x" (Some "y"%string)
           (getMockDocumentation "Gmail API x y") 0 100 1000 1100 1800100 1800200).
  - reflexivity.
  - reflexivity.
  - reflexivity.
  - lia.
  - rewrite cache_duration_value. lia.
  - rewrite cache_duration_value. lia.
Defined.

(** C6.  After [setEnabled(false)] every call, in any sequence of calls,
    returns [null] and hands nothing to the fetch function, whatever the cache
    holds; the entries themselves stay in the two maps, unused. *)
Theorem C6_disabled_returns_null_without_fetch
  (fetch : SearchTerm -> Outcome Context7Response) (s : Context7Service)
  (requests : list Request) :
  session fetch requests (setEnabled false s) =
    (setEnabled false s, map (fun _ => None) requests, []) /\
  cache (setEnabled false s) = cache s /\
  cacheExpiry (setEnabled false s) = cacheExpiry s.
Proof.
  split; [|split; reflexivity].
  induction requests as [|r rest IH]; [reflexivity|].
  cbn [session map].
  change (getRelevantDocumentation fetch (asked_at r) (stored_at r) (operation r)
            (context r) (setEnabled false s))
    with {| service := setEnabled false s; result := None; fetched := [] |}.
  cbn [service result fetched]. rewrite IH. reflexivity.
Qed.

(** A key cached a moment ago is not served once the service is disabled,
    and is served again from the cache once it is enabled again. *)
Example disabled_with_live_entry :
  let c1 := getRelevantDocumentation fetchFromContext7 0 100 "x" (Some "y"%string) (new None) in
  let off := getRelevantDocumentation fetchFromContext7 200 300 "x" (Some "y"%string)
               (setEnabled false (service c1)) in
  let on := getRelevantDocumentation fetchFromContext7 400 500 "x" (Some "y"%string)
              (setEnabled true (service off)) in
  result c1 = Some (getMockDocumentation "Gmail API x y") /\
  result off = None /\ fetched off = [] /\
  result on = Some (getMockDocumentation "Gmail API x y") /\ fetched on = [].
Proof. vm_compute. repeat split. Qed.

(** C7, as the claim words it, fails: a failing fetch for a key that still
    has an expired entry leaves the cache changed, because the lookup that
    precedes the fetch evicts that entry. *)
Lemma C7_stale_entry_evicted_counterexample :
  service (getRelevantDocumentation failingFetch 10 11 "x" (Some "y"%string) staleService)
  <> staleService.
Proof.
  intros H.
  apply (f_equal (fun s => cache s !! "x-y"%string)) in H.
  vm_compute in H. discriminate H.
Qed.

(** C7, amended.  When the fetch function is invoked (cache enabled, no live
    entry) and fails, the call returns [null] instead of failing, one search
    term was fetched, and nothing is stored: the key has no value afterwards,
    every other key is as before, and the whole service is unchanged unless
    an expired entry for the key was present (the lookup evicts it). *)
Theorem C7_failed_fetch_stores_nothing
  (fetch : SearchTerm -> Outcome Context7Response) (s : Context7Service)
  (now later : Z) (operation : string) (context : option string) (err : JsError) :
  enabled s = true ->
  live now (cache s !! cacheKey operation context)
           (cacheExpiry s !! cacheKey operation context) = false ->
  fetch (mapOperationToSearchTerm operation context) = Rejects err ->
  let c := getRelevantDocumentation fetch now later operation context s in
  result c = None /\
  fetched c = [mapOperationToSearchTerm operation context] /\
  cache (service c) !! cacheKey operation context = None /\
  (forall k, k <> cacheKey operation context ->
     cache (service c) !! k = cache s !! k /\
     cacheExpiry (service c) !! k = cacheExpiry s !! k) /\
  (cache s !! cacheKey operation context = None -> service c = s).
Proof.
  intros Hen Hlive Hf c. subst c. unfold getRelevantDocumentation.
  rewrite Hen. simpl.
  pose proof (getCachedResponse_miss now _ s Hlive) as (Hnone & Hgone & _).
  pose proof (fun k => getCachedResponse_other now (cacheKey operation context) k s) as Hother.
  pose proof (getCachedResponse_absent now (cacheKey operation context) s) as Habs.
  destruct (getCachedResponse now (cacheKey operation context) s) as [s1 cached].
  simpl in *. subst cached. rewrite Hf. simpl.
  repeat split; try assumption; try (apply Hother; assumption).
  intros Hk. specialize (Habs Hk). congruence.
Qed.

(** The failing fetch on the service with the expired entry, at time 10. *)
Lemma C7_failed_fetch_stores_nothing_witness :
  let c := getRelevantDocumentation failingFetch 10 11 "x" (Some "y"%string) staleService in
  result c = None /\
  fetched c = [mapOperationToSearchTerm "x" (Some "y"%string)] /\
  cache (service c) !! cacheKey "x" (Some "y"%string) = None /\
  (forall k, k <> cacheKey "x" (Some "y"%string) ->
     cache (service c) !! k = cache staleService !! k /\
     cacheExpiry (service c) !! k = cacheExpiry staleService !! k) /\
  (cache staleService !! cacheKey "x" (Some "y"%string) = None -> service c = staleService).
Proof.
  apply (C7_failed_fetch_stores_nothing failingFetch staleService 10 11 "x"
           (Some "y"%string) (PlainError "Context7 unavailable")).
  - reflexivity.
  - reflexivity.
  - reflexivity.
Defined.

(** C10, as the claim words it, fails at its own example: operation [a]
    with context [b] and operation [a-b] with context [default] get the
    different keys [a-b] and [a-b-default]. *)
Lemma C10_named_pairs_get_different_keys_counterexample :
  cacheKey "a" (Some "b"%string) <> cacheKey "a-b" (Some "default"%string).
Proof. vm_compute. discriminate. Qed.

(** C10, amended.  The key construction is not injective: operation [a]
    with context [b-default] and operation [a-b] with context [default] are
    different pairs with different search terms and the same key
    [a-b-default]; so once a call for the first pair has fetched and stored its
    documentation at time [t1], a call for the second pair before
    [t1 + CACHE_DURATION] returns that documentation and fetches nothing. *)
Theorem C10_cacheKey_not_injective :
  exists (op1 op2 : string) (ctx1 ctx2 : option string),
    (op1, ctx1) <> (op2, ctx2) /\
    cacheKey op1 ctx1 = cacheKey op2 ctx2 /\
    mapOperationToSearchTerm op1 ctx1 <> mapOperationToSearchTerm op2 ctx2 /\
    forall (fetch : SearchTerm -> Outcome Context7Response) (s : Context7Service)
           (doc : Context7Response) (t0 t1 t2 t2' : Z),
      enabled s = true ->
      live t0 (cache s !! cacheKey op1 ctx1) (cacheExpiry s !! cacheKey op1 ctx1) = false ->
      fetch (mapOperationToSearchTerm op1 ctx1) = Fulfilled doc ->
      0 <= t1 ->
      t2 < t1 + CACHE_DURATION ->
      let c1 := getRelevantDocumentation fetch t0 t1 op1 ctx1 s in
      let c2 := getRelevantDocumentation fetch t2 t2' op2 ctx2 (service c1) in
      result c1 = Some doc /\ result c2 = Some doc /\ fetched c2 = [].
Proof.
  exists "a"%string, "a-b"%string, (Some "b-default"%string), (Some "default"%string).
  split; [discriminate|]. split; [reflexivity|]. split; [vm_compute; discriminate|].
  intros fetch s doc t0 t1 t2 t2' Hen Hlive Hf Ht1 Ht2 c1 c2.
  destruct (getRelevantDocumentation_fetch fetch t0 t1 _ _ s doc Hen Hlive Hf)
    as (Hr1 & _ & Hen1 & Hc1 & He1).
  fold c1 in Hr1, Hen1, Hc1, He1.
  assert (H2 : c2 = {| service := service c1; result := Some doc; fetched := [] |}).
  { subst c2.
    apply (getRelevantDocumentation_hit fetch t2 t2' "a-b" (Some "default"%string)
             (service c1) doc (t1 + CACHE_DURATION)); try assumption.
    rewrite cache_duration_value. lia. }
  rewrite H2. simpl. repeat split; assumption.
Qed.

(** The same collision on the source's mock fetch: the second pair is handed
    the placeholder text written for the first pair's search term. *)
Example cross_hit_on_mock :
  let c1 := getRelevantDocumentation fetchFromContext7 0 100 "a" (Some "b-default"%string) (new None) in
  let c2 := getRelevantDocumentation fetchFromContext7 200 300 "a-b" (Some "default"%string)
              (service c1) in
  result c2 = Some (placeholder "Gmail API a b-default") /\
  fetched c2 = [] /\
  fetchFromContext7 (mapOperationToSearchTerm "a-b" (Some "default"%string))
    = Fulfilled (placeholder "Gmail API a-b default").
Proof. vm_compute. repeat split. Qed.

End Context7Claims.

(** ** The interactive flow *)

Module FlowFacts.
Import Flow.

Lemma Inv_start creds : Inv (start creds).
Proof. split; simpl; intros; try discriminate; auto. Qed.

Lemma settle_settled p f : settled p = true -> settled (promise (settle p f)) = true.
Proof.
  intros Hp. unfold settle. destruct (promise f) eqn:E; simpl; auto; rewrite E; auto.
Qed.

(** Settling changes nothing but the promise. *)
Lemma settle_fields p f :
  listening (settle p f) = listening f /\
  port_releases (settle p f) = port_releases f /\
  destroy_calls (settle p f) = destroy_calls f /\
  timer_armed (settle p f) = timer_armed f /\
  exchanging (settle p f) = exchanging f.
Proof. unfold settle. destruct (promise f); simpl; auto. Qed.

Lemma settle_timer p f : timer_armed (settle p f) = timer_armed f.
Proof. apply settle_fields. Qed.

(** Destroying and then settling keeps the invariant, whatever was done to
    the response, the calls in flight and the credentials in between. *)
Lemma Inv_destroy_settle p f g :
  Inv f -> settled p = true ->
  listening g = listening f -> port_releases g = port_releases f ->
  destroy_calls g = destroy_calls f -> promise g = promise f ->
  (timer_armed g = false -> settled p = true) ->
  Inv (settle p (destroy g)).
Proof.
  intros [Hl Hc Ht Hs] Hp El Er Ed Ep _.
  pose proof (settle_fields p (destroy g)) as (Fl & Fr & Fd & Ft & Fe).
  split.
  - rewrite Fl. simpl. discriminate.
  - intros _. rewrite Fr, Fd. simpl. rewrite El, Er, Ed.
    destruct (listening f) eqn:E.
    + destruct (Hl eq_refl) as (_ & -> & -> & _). split; lia.
    + destruct (Hc eq_refl) as (-> & ?). split; lia.
  - intros _. apply settle_settled. exact Hp.
  - intros _. rewrite Fl. reflexivity.
Qed.

Section Reachable.

Variable searchParams : string -> JsError + list (string * string).
Variable getToken : string -> Outcome TokenData.

Local Abbreviation step := (step searchParams getToken).
Local Abbreviation run := (run searchParams getToken).

Lemma Inv_onRequest url f : Inv f -> Inv (onRequest searchParams url f).
Proof.
  intros HI. unfold onRequest.
  destruct (truthy url) as [u|]; [|exact HI].
  destruct (includes u "/oauth2callback"); [|exact HI].
  destruct (searchParams u) as [err|qs].
  - unfold handlerCatch, reject. apply (Inv_destroy_settle _ f); auto.
  - destruct (truthy (get "error" qs)) as [e|].
    + unfold reject. apply (Inv_destroy_settle _ f); auto.
    + destruct (truthy (get "code" qs)) as [c|].
      * destruct HI as [H1 H2 H3 H4].
        split; simpl.
        -- discriminate.
        -- intros _. destruct (listening f) eqn:Hl.
           ++ destruct (H1 eq_refl) as (_ & -> & -> & _). split; lia.
           ++ destruct (H2 eq_refl) as (-> & ?). split; lia.
        -- exact H3.
        -- reflexivity.
      * unfold reject. apply (Inv_destroy_settle _ f); auto.
Qed.

Lemma Inv_onExchange i f : Inv f -> Inv (onExchange getToken i f).
Proof.
  intros HI. unfold onExchange.
  destruct (exchanging f !! i) as [code|] eqn:Ex; [|exact HI].
  assert (Hl : listening f = false).
  { destruct (listening f) eqn:E; [|reflexivity].
    destruct HI as [H1 _ _ _]. destruct (H1 E) as (_ & _ & _ & Hn).
    rewrite Hn in Ex. discriminate Ex. }
  destruct (getToken code) as [tokens|err].
  - destruct HI as [H1 H2 H3 H4].
    pose proof (settle_fields Resolved (setCredentials tokens (endExchange i f)))
      as (Fl & Fr & Fd & Ft & Fe).
    unfold resolve. split.
    + rewrite Fl. simpl. congruence.
    + rewrite Fl, Fr, Fd. simpl. exact H2.
    + intros _. apply settle_settled. reflexivity.
    + intros _. rewrite Fl. exact Hl.
  - unfold handlerCatch, reject. apply (Inv_destroy_settle _ f); auto.
Qed.

Lemma Inv_onTimer f : Inv f -> Inv (onTimer f).
Proof.
  intros HI. unfold onTimer, reject. apply (Inv_destroy_settle _ f); auto.
Qed.

Lemma Inv_step f ev : Inv f -> Inv (step f ev).
Proof.
  intros HI. destruct ev as [url|i|]; simpl.
  - apply Inv_onRequest. exact HI.
  - apply Inv_onExchange. exact HI.
  - destruct (timer_armed f); [apply Inv_onTimer; exact HI | exact HI].
Qed.

Lemma Inv_run evs f : Inv f -> Inv (run evs f).
Proof.
  revert f. induction evs as [|ev evs IH]; intros f HI; simpl; [exact HI|].
  apply IH, Inv_step, HI.
Qed.

(** Every state reached from the start of a flow satisfies the invariant. *)
Lemma Inv_reachable creds evs : Inv (run evs (start creds)).
Proof. apply Inv_run, Inv_start. Qed.

Lemma run_app evs1 evs2 f : run (evs1 ++ evs2) f = run evs2 (run evs1 f).
Proof. unfold Flow.run. apply fold_left_app. Qed.

(** A settled promise stays as it is. *)
Lemma settle_idle p f : settled (promise f) = true -> settle p f = f.
Proof. unfold settle. destruct (promise f); simpl; [discriminate| |]; reflexivity. Qed.

(** The port is never released more than once. *)
Lemma port_released_at_most_once creds evs :
  (port_releases (run evs (start creds)) <= 1)%nat.
Proof.
  destruct (Inv_reachable creds evs) as [H1 H2 _ _].
  destruct (listening (run evs (start creds))) eqn:E.
  - destruct (H1 eq_refl) as (_ & -> & _). lia.
  - destruct (H2 eq_refl) as (-> & _). lia.
Qed.

(** The timer is disarmed by nothing but its own firing. *)
Lemma timer_armed_step f ev :
  eventIsTimer ev = false -> timer_armed (step f ev) = timer_armed f.
Proof.
  destruct ev as [url|i|]; simpl; intros H; [| |discriminate].
  - unfold onRequest.
    destruct (truthy url) as [u|]; [|reflexivity].
    destruct (includes u "/oauth2callback"); [|reflexivity].
    destruct (searchParams u) as [err|qs].
    + unfold handlerCatch, reject. rewrite settle_timer. reflexivity.
    + destruct (truthy (get "error" qs));
        [unfold reject; rewrite settle_timer; reflexivity|].
      destruct (truthy (get "code" qs)); [reflexivity|].
      unfold reject. rewrite settle_timer. reflexivity.
  - unfold onExchange. destruct (exchanging f !! i) as [code|]; [|reflexivity].
    destruct (getToken code).
    + unfold resolve. rewrite settle_timer. reflexivity.
    + unfold handlerCatch, reject. rewrite settle_timer. reflexivity.
Qed.

Lemma timer_armed_run evs f :
  forallb (fun ev => negb (eventIsTimer ev)) evs = true ->
  timer_armed (run evs f) = timer_armed f.
Proof.
  revert f. induction evs as [|ev evs IH]; intros f H; simpl in *; [reflexivity|].
  apply andb_true_iff in H as [Hev Hrest].
  rewrite IH by exact Hrest. apply timer_armed_step.
  apply negb_true_iff. exact Hev.
Qed.

(** A settled promise keeps its settlement under every later event. *)
Lemma settled_step g ev :
  Inv g -> settled (promise g) = true -> promise (step g ev) = promise g.
Proof.
  intros HI Hs.
  destruct ev as [url|i|]; simpl.
  - unfold onRequest.
    destruct (truthy url) as [u|]; [|reflexivity].
    destruct (includes u "/oauth2callback"); [|reflexivity].
    destruct (searchParams u) as [err|qs].
    + unfold handlerCatch, reject. rewrite settle_idle by exact Hs. reflexivity.
    + destruct (truthy (get "error" qs));
        [unfold reject; rewrite settle_idle by exact Hs; reflexivity|].
      destruct (truthy (get "code" qs)); [reflexivity|].
      unfold reject. rewrite settle_idle by exact Hs. reflexivity.
  - unfold onExchange. destruct (exchanging g !! i) as [code|]; [|reflexivity].
    destruct (getToken code).
    + unfold resolve. rewrite settle_idle by exact Hs. reflexivity.
    + unfold handlerCatch, reject. rewrite settle_idle by exact Hs. reflexivity.
  - destruct (timer_armed g); [|reflexivity].
    unfold onTimer, reject. rewrite settle_idle by exact Hs. reflexivity.
Qed.

Lemma settled_run evs g :
  Inv g -> settled (promise g) = true -> promise (run evs g) = promise g.
Proof.
  revert g. induction evs as [|ev evs IH]; intros g HI Hs; simpl; [reflexivity|].
  rewrite IH.
  - apply settled_step; assumption.
  - apply Inv_step, HI.
  - rewrite settled_step; assumption.
Qed.

(** Firing the timer settles the promise, if it was not settled before. *)
Lemma timer_step_settles f :
  Inv f -> settled (promise (step f TimerFires)) = true.
Proof.
  intros HI. simpl. destruct (timer_armed f) eqn:E.
  - unfold onTimer, reject. apply settle_settled. reflexivity.
  - apply (inv_timer _ HI). exact E.
Qed.

(** Once the timer event has occurred the promise is settled. *)
Lemma timer_settles creds evs :
  In TimerFires evs -> settled (promise (run evs (start creds))) = true.
Proof.
  intros Hin. apply in_split in Hin as (before & after & ->).
  rewrite run_app.
  change (run (TimerFires :: after) (run before (start creds)))
    with (run after (step (run before (start creds)) TimerFires)).
  rewrite settled_run.
  - apply timer_step_settles, Inv_reachable.
  - apply Inv_step, Inv_reachable.
  - apply timer_step_settles, Inv_reachable.
Qed.

(** Settling leaves the credentials alone. *)
Lemma settle_credentials p f : credentials (settle p f) = credentials f.
Proof. unfold settle. destruct (promise f); reflexivity. Qed.



(** Handling the events up to the settlement and then the remaining ones is
    handling them all. *)
Lemma run_untilSettled evs f :
  run (untilSettled searchParams getToken evs f).2
      (untilSettled searchParams getToken evs f).1 = run evs f.
Proof.
  revert f. induction evs as [|ev evs IH]; intros f; simpl; [reflexivity|].
  destruct (settled (promise f)); [reflexivity | apply IH].
Qed.

End Reachable.

End FlowFacts.

Module FlowClaims.
Import Flow FlowFacts Scenario.

(** C1.  Once a flow has taken an exit path (its promise is settled: code
    exchanged, exchange refused, error parameter, no code) or its 5-minute
    timer has fired, the port has been released exactly once and the listener
    is closed; and this stays so under every later event, so the port is never
    released a second time. *)
Theorem C1_listener_released_exactly_once
  (searchParams : string -> JsError + list (string * string))
  (getToken : string -> Outcome TokenData) (creds : TokenData) (evs : list Event) :
  let f := run searchParams getToken evs (start creds) in
  settled (promise f) = true \/ In TimerFires evs ->
  forall later : list Event,
    port_releases (run searchParams getToken later f) = 1%nat /\
    listening (run searchParams getToken later f) = false.
Proof.
  intros f Hexit later.
  assert (Hs : settled (promise f) = true).
  { destruct Hexit as [Hs|Hin]; [exact Hs | apply timer_settles, Hin]. }
  subst f. rewrite <- run_app.
  pose proof (Inv_reachable searchParams getToken creds (evs ++ later)) as HI.
  assert (Hs' : settled (promise (run searchParams getToken (evs ++ later) (start creds))) = true).
  { rewrite run_app, settled_run; [exact Hs | apply Inv_reachable | exact Hs]. }
  pose proof (inv_settled _ HI Hs') as Hl.
  split; [apply (inv_closed _ HI Hl) | exact Hl].
Qed.

(** The code path: callback with a code, exchange fulfilled, and then the
    timer fires on the settled flow. *)
Lemma C1_listener_released_exactly_once_witness :
  port_releases (run plainSearchParams tokenEndpoint [TimerFires]
                   (run plainSearchParams tokenEndpoint
                      [Request (Some "/oauth2callback?code=abc"%string); ExchangeSettles 0]
                      (start noCredentials))) = 1%nat /\
  listening (run plainSearchParams tokenEndpoint [TimerFires]
               (run plainSearchParams tokenEndpoint
                  [Request (Some "/oauth2callback?code=abc"%string); ExchangeSettles 0]
                  (start noCredentials))) = false.
Proof.
  apply (C1_listener_released_exactly_once plainSearchParams tokenEndpoint noCredentials
           [Request (Some "/oauth2callback?code=abc"%string); ExchangeSettles 0]).
  left. reflexivity.
Defined.

(** The exit paths on concrete schedules: the promise, the number of
    port releases, and the number of [server.destroy()] calls once the timer
    has fired as well. *)
Example exit_paths :
  let final evs := run plainSearchParams tokenEndpoint evs (start noCredentials) in
  (promise (final codeReceived), port_releases (final codeReceived),
   destroy_calls (final codeReceived)) = (Resolved, 1%nat, 2%nat) /\
  (promise (final errorReceived), port_releases (final errorReceived),
   destroy_calls (final errorReceived))
    = (Rejected (AuthenticationError "OAuth2 error: access_denied"), 1%nat, 2%nat) /\
  (promise (final noCodeReceived), port_releases (final noCodeReceived),
   destroy_calls (final noCodeReceived))
    = (Rejected (AuthenticationError "No authorization code received"), 1%nat, 2%nat) /\
  (promise (final timedOut), port_releases (final timedOut),
   destroy_calls (final timedOut))
    = (Rejected (AuthenticationError "Authentication timeout - please try again"),
       1%nat, 1%nat) /\
  (promise (final exchangeRefused), port_releases (final exchangeRefused),
   destroy_calls (final exchangeRefused))
    = (Rejected (PlainError "invalid_grant"), 1%nat, 3%nat).
Proof. vm_compute. repeat split. Qed.

(** C2, as the claim words it, fails: after a callback with an error
    parameter has rejected the flow, the watchdog timer is still armed; when
    it fires it calls [server.destroy()] a second time. *)
Lemma C2_timer_still_armed_counterexample :
  let f := run plainSearchParams tokenEndpoint
             [Request (Some "/oauth2callback?error=access_denied"%string)]
             (start noCredentials) in
  promise f = Rejected (AuthenticationError "OAuth2 error: access_denied") /\
  timer_armed f = true /\
  destroy_calls (step plainSearchParams tokenEndpoint f TimerFires) = 2%nat.
Proof. vm_compute. repeat split. Qed.

(** C2, amended.  The watchdog is never cancelled: as long as the timer
    event has not occurred the timer is armed, on every path.  When it fires
    it always calls [server.destroy()] once more and leaves the listener
    closed; the flow fails with the timeout error exactly when the promise was
    still pending, and a promise settled before keeps its settlement. *)
Theorem C2_watchdog_never_cancelled
  (searchParams : string -> JsError + list (string * string))
  (getToken : string -> Outcome TokenData) (creds : TokenData) (evs : list Event) :
  let f := run searchParams getToken evs (start creds) in
  let f' := step searchParams getToken f TimerFires in
  (forallb (fun ev => negb (eventIsTimer ev)) evs = true -> timer_armed f = true) /\
  (timer_armed f = true ->
     timer_armed f' = false /\
     listening f' = false /\
     destroy_calls f' = S (destroy_calls f) /\
     promise f' =
       match promise f with
       | Pending => Rejected (AuthenticationError "Authentication timeout - please try again")
       | p => p
       end).
Proof.
  intros f f'. split.
  - intros H. subst f. rewrite timer_armed_run by exact H. reflexivity.
  - intros Ha. subst f'. clearbody f. simpl. rewrite Ha. unfold onTimer, reject.
    pose proof (settle_fields
                  (Rejected (AuthenticationError "Authentication timeout - please try again"))
                  (destroy (timerFired f))) as (Fl & _ & Fd & Ft & _).
    rewrite Fl, Fd, Ft. simpl. repeat split.
    unfold settle. simpl. destruct (promise f) eqn:E; simpl; rewrite ?E; reflexivity.
Qed.

(** C8, as the claim words it, fails: a request to the unrelated path
    [/favicon.ico] whose query string mentions [/oauth2callback] is taken for
    the callback and rejects the flow. *)
Lemma C8_unrelated_path_resolves_counterexample :
  pathOf "/favicon.ico?next=/oauth2callback" = "/favicon.ico"%string /\
  promise (step plainSearchParams tokenEndpoint (start noCredentials)
             (Request (Some "/favicon.ico?next=/oauth2callback"%string)))
  = Rejected (AuthenticationError "No authorization code received").
Proof. vm_compute. split; reflexivity. Qed.

(** C8, amended.  For a request handled while the flow is still pending:
    if its URL contains [/oauth2callback] anywhere and the URL parser accepts
    it, then with a non-empty [error] parameter the flow is rejected with
    [OAuth2 error: <error>], a message that contains the error string, and with
    neither a non-empty [error] nor a non-empty [code] it is rejected with
    [No authorization code received]; if the URL parser throws on it, the flow
    is rejected with the parser's error.  A request whose URL does not contain
    [/oauth2callback] (or that has no URL) changes nothing, so a pending flow
    stays pending.  A request handled after the flow has settled never changes
    the settlement. *)
Theorem C8_callback_request_outcomes
  (searchParams : string -> JsError + list (string * string))
  (getToken : string -> Outcome TokenData) (creds : TokenData) (evs : list Event)
  (url : option string) :
  let f := run searchParams getToken evs (start creds) in
  let f' := step searchParams getToken f (Request url) in
  (promise f = Pending ->
     (forall u qs e,
        truthy url = Some u -> includes u "/oauth2callback" = true ->
        searchParams u = inr qs -> truthy (get "error" qs) = Some e ->
        promise f' = Rejected (AuthenticationError ("OAuth2 error: " +:+ e)) /\
        includes (message_of (AuthenticationError ("OAuth2 error: " +:+ e))) e = true) /\
     (forall u qs,
        truthy url = Some u -> includes u "/oauth2callback" = true ->
        searchParams u = inr qs ->
        truthy (get "error" qs) = None -> truthy (get "code" qs) = None ->
        promise f' = Rejected (AuthenticationError "No authorization code received")) /\
     (forall u err,
        truthy url = Some u -> includes u "/oauth2callback" = true ->
        searchParams u = inl err ->
        promise f' = Rejected err)) /\
  ((forall u, truthy url = Some u -> includes u "/oauth2callback" = false) ->
     f' = f) /\
  (settled (promise f) = true -> promise f' = promise f).
Proof.
  intros f f'. split; [|split].
  - intros Hp.
    assert (Hset : forall p g, promise g = promise f -> promise (settle p g) = p).
    { intros p g Hg. unfold settle. rewrite Hg, Hp. reflexivity. }
    subst f'. unfold step, onRequest. split; [|split].
    + intros u qs e Hu Hin Hqs He. rewrite Hu, Hin, Hqs, He.
      split; [apply Hset; reflexivity | cbn [message_of]; apply includes_suffix].
    + intros u qs Hu Hin Hqs He Hc. rewrite Hu, Hin, Hqs, He, Hc.
      apply Hset. reflexivity.
    + intros u err Hu Hin Hqs. rewrite Hu, Hin, Hqs.
      unfold handlerCatch. apply Hset. reflexivity.
  - intros Hno. subst f'. unfold step, onRequest.
    destruct (truthy url) as [u|]; [|reflexivity].
    rewrite (Hno u eq_refl). reflexivity.
  - intros Hs. subst f' f. apply settled_step; [apply Inv_reachable | exact Hs].
Qed.

(** The three requests of the claim on the plain query reader. *)
Example callback_requests :
  let after url := step plainSearchParams tokenEndpoint (start noCredentials)
                     (Request (Some url)) in
  promise (after "/oauth2callback?error=access_denied"%string)
    = Rejected (AuthenticationError "OAuth2 error: access_denied") /\
  promise (after "/oauth2callback?state=1"%string)
    = Rejected (AuthenticationError "No authorization code received") /\
  after "/favicon.ico"%string = start noCredentials.
Proof. vm_compute. repeat split. Qed.

End FlowClaims.

(** ** The coordinator *)

Module AuthFacts.
Import Flow Auth.

Lemma refreshes_app t1 t2 : refreshes (t1 ++ t2) = (refreshes t1 + refreshes t2)%nat.
Proof. unfold refreshes. rewrite List.filter_app, length_app. reflexivity. Qed.

Lemma refreshes_cons e t :
  refreshes (e :: t) = ((if isRefresh e then 1 else 0) + refreshes t)%nat.
Proof. unfold refreshes. simpl. destruct (isRefresh e); reflexivity. Qed.

(** The interactive flow never refreshes a token. *)
Lemma refreshes_flow (l : list FlowEffect) : refreshes (map FlowDid l) = 0%nat.
Proof. induction l as [|e l IH]; [reflexivity | exact IH]. Qed.

(** Both factories reject the same environments. *)
Lemma incomplete_spec (env : Environment) (context7 : bool) :
  incomplete (configFromEnvironment env context7) = true <->
  truthy (env !! "GOOGLE_CLIENT_ID"%string) = None \/
  truthy (env !! "GOOGLE_CLIENT_SECRET"%string) = None.
Proof.
  unfold incomplete, configFromEnvironment. simpl.
  rewrite orb_true_iff, !negb_true_iff.
  assert (H : forall o, truthy_str (or_default o EmptyString) = false <-> truthy o = None).
  { intros [s|]; simpl; [|tauto]. destruct (truthy_str s) eqn:E; simpl; [|tauto].
    rewrite E. split; discriminate. }
  rewrite !H. reflexivity.
Qed.

(** [createFromEnvironment] throws a plain [Error], which carries no error
    code, where [fromEnvironment] throws an [AuthenticationError]. *)
Lemma createFromEnvironment_plain_error (env : Environment) :
  truthy (env !! "GOOGLE_CLIENT_ID"%string) = None \/
  truthy (env !! "GOOGLE_CLIENT_SECRET"%string) = None ->
  createFromEnvironment env = Throws (PlainError missingVariables) /\
  is_AuthenticationError (PlainError missingVariables) = false /\
  code_of (PlainError missingVariables) = None.
Proof.
  intros H. unfold createFromEnvironment.
  rewrite (proj2 (incomplete_spec env _) H). repeat split.
Qed.

(** The client is handed out exactly when an access token is present and
    not empty. *)
Lemma getAuthenticatedClient_returns (a : AuthService) :
  (exists c, getAuthenticatedClient a = Returns c) <->
  (exists tok, access_token (clientCredentials a) = Some tok /\ truthy_str tok = true).
Proof.
  unfold getAuthenticatedClient, truthy.
  destruct (access_token (clientCredentials a)) as [tok|].
  - destruct (truthy_str tok) eqn:E; split.
    + intros _. exists tok. auto.
    + intros _. eexists. reflexivity.
    + intros [c Hc]. discriminate Hc.
    + intros (tok' & Heq & Ht). congruence.
  - split; [intros [c Hc]; discriminate Hc | intros (tok' & Heq & _); discriminate Heq].
Qed.

Ltac count_refreshes :=
  rewrite ?refreshes_cons, ?refreshes_app, ?refreshes_flow; reflexivity.

End AuthFacts.

Module AuthClaims.
Import Flow Auth AuthFacts Scenario.

(** C3, as the claim words it, fails at the boundary: a stored credential
    that passes introspection and expires exactly 5 minutes after now is
    accepted without any refresh. *)
Lemma C3_boundary_not_refreshed_counterexample :
  let w := friendlyWorld [] in
  let r := authenticate w (initial (newAuthService configured) (Some (storedTokens 1300000))) in
  1300000 - now w = 5 * 60 * 1000 /\
  r.1 = Returns tt /\
  refreshes (trace r.2) = 0%nat.
Proof. vm_compute. repeat split. Qed.

(** C3, amended.  For every stored credential that passes introspection and
    whose expiry is non-zero and strictly less than 5 minutes after now (the
    boundary excluded), [authenticate()] triggers exactly one token refresh,
    whatever happens next; and when the refresh and the saving of its result
    succeed, it returns right after them without the interactive flow. *)
Theorem C3_one_refresh_when_expiring
  (w : World) (a : AuthService) (t : TokenData) (expiry : Z) :
  tokenInfo w (access_token t) = Fulfilled tt ->
  expiry_date t = Some expiry ->
  expiry <> 0 ->
  expiry - now w < 5 * 60 * 1000 ->
  let r := authenticate w (initial a (Some t)) in
  refreshes (trace r.2) = 1%nat /\
  (forall t', refreshAccessToken w t = Fulfilled t' -> writeFile w t' = Fulfilled tt ->
     r.1 = Returns tt /\
     trace r.2 = [ReadTokenFile; TokenInfoRequest (access_token t); RefreshRequest;
                  WriteTokenFile t']).
Proof.
  intros Hinfo Hexp Hnz Hlt r.
  assert (Hsoon : expiresSoon w (expiry_date t) = true).
  { rewrite Hexp. unfold expiresSoon, truthy_num.
    apply andb_true_iff. split; [apply negb_true_iff, Z.eqb_neq, Hnz | apply Z.ltb_lt, Hlt]. }
  subst r.
  unfold authenticate, loadTokens, isTokenValid, refreshToken, saveTokens,
    performOAuth2Flow, tryCatch, bind, emit, getCredentials, setClientCredentials,
    storeFile, await, ret, throw, initial.
  cbn -[run start expiresSoon refreshes]. rewrite Hinfo.
  cbn -[run start expiresSoon refreshes]. rewrite Hsoon.
  cbn -[run start expiresSoon refreshes].
  destruct (refreshAccessToken w t) as [t'|e1];
    cbn -[run start expiresSoon refreshes].
  - destruct (writeFile w t') as [[]|e2] eqn:Ew; cbn -[run start expiresSoon refreshes].
    + split; [reflexivity|]. intros t'' Heq _. inversion Heq; subst. split; reflexivity.
    + split; [|intros t'' Heq Hw; inversion Heq; subst; congruence].
      match goal with
      | |- context [promise ?f] => destruct (promise f); cbn -[run start refreshes]
      end.
      * count_refreshes.
      * match goal with
        | |- context [writeFile w (credentials ?f)] =>
            destruct (writeFile w (credentials f)) as [[]|e3]
        end; cbn -[run start refreshes]; count_refreshes.
      * count_refreshes.
  - split; [|intros t'' Heq; discriminate Heq].
    match goal with
    | |- context [promise ?f] => destruct (promise f); cbn -[run start refreshes]
    end.
    + count_refreshes.
    + match goal with
        | |- context [writeFile w (credentials ?f)] =>
            destruct (writeFile w (credentials f)) as [[]|e3]
        end; cbn -[run start refreshes]; count_refreshes.
    + count_refreshes.
Qed.

(** Why the amended claim asks for a credential that passes introspection:
    when the introspection request fails, an expiring credential is not
    refreshed at all; the interactive flow starts instead. *)
Example no_refresh_when_introspection_fails :
  let r := authenticate (strictWorld codeReceived)
             (initial (newAuthService configured) (Some (storedTokens 1000001))) in
  r.1 = Returns tt /\
  refreshes (trace r.2) = 0%nat /\
  trace r.2 = [ReadTokenFile; TokenInfoRequest (Some "ya29.stored"%string); StartListener;
               FlowDid OpenBrowser; FlowDid (TokenExchange "abc");
               WriteTokenFile freshTokens].
Proof. vm_compute. repeat split. Qed.

(** One millisecond inside the threshold: expiry 1 299 999 at time 1 000 000. *)
Lemma C3_one_refresh_when_expiring_witness :
  let w := friendlyWorld [] in
  let r := authenticate w (initial (newAuthService configured) (Some (storedTokens 1299999))) in
  refreshes (trace r.2) = 1%nat /\
  (forall t',
     refreshAccessToken w (storedTokens 1299999) = Fulfilled t' ->
     writeFile w t' = Fulfilled tt ->
     r.1 = Returns tt /\
     trace r.2 = [ReadTokenFile; TokenInfoRequest (access_token (storedTokens 1299999));
                  RefreshRequest; WriteTokenFile t']).
Proof.
  apply (C3_one_refresh_when_expiring (friendlyWorld []) (newAuthService configured)
           (storedTokens 1299999) 1299999).
  - reflexivity.
  - reflexivity.
  - lia.
  - simpl. lia.
Defined.

(** C4, as the claim words it, fails: a configuration object without client
    id and secret is accepted by the constructor, and initialization then
    succeeds on a stored credential after a request to the token
    introspection endpoint; no [AuthenticationError] is raised anywhere. *)
Lemma C4_constructor_accepts_incomplete_counterexample :
  let service := newAuthService unconfigured in
  let r := initialize (friendlyWorld []) (initial service (Some (storedTokens 9000000))) in
  incomplete unconfigured = true /\
  r.1 = Returns tt /\
  trace r.2 = [ReadTokenFile; TokenInfoRequest (Some "ya29.stored"%string)] /\
  existsb isNetworkOrBrowser (trace r.2) = true.
Proof. vm_compute. repeat split. Qed.

(** C4, amended.  For every environment in which [GOOGLE_CLIENT_ID] or
    [GOOGLE_CLIENT_SECRET] is unset or empty, [AuthService.fromEnvironment]
    fails with an [AuthenticationError] and [createFromEnvironment] fails as
    well, both before any service object exists; a start-up through
    [createFromEnvironment] therefore ends with that failure and has done
    nothing to the outside world: no file access, no network request, no
    listener, no browser. *)
Theorem C4_factories_reject_incomplete_environment
  (env : Environment) (w : World) (file : option TokenData) :
  truthy (env !! "GOOGLE_CLIENT_ID"%string) = None \/
  truthy (env !! "GOOGLE_CLIENT_SECRET"%string) = None ->
  fromEnvironment env = Throws (AuthenticationError missingVariables) /\
  exists e,
    createFromEnvironment env = Throws e /\
    message_of e = missingVariables /\
    initializeGmailManager env w file = (Throws e, []).
Proof.
  intros H. split.
  - unfold fromEnvironment. rewrite (proj2 (incomplete_spec env _) H). reflexivity.
  - destruct (createFromEnvironment_plain_error env H) as (Hc & _).
    eexists. split; [exact Hc|]. split; [reflexivity|].
    unfold initializeGmailManager. rewrite Hc. reflexivity.
Qed.

(** An environment with the client id only. *)
Lemma C4_factories_reject_incomplete_environment_witness :
  let env : Environment := {[ "GOOGLE_CLIENT_ID"%string := "id.apps.googleusercontent.com"%string ]} in
  fromEnvironment env = Throws (AuthenticationError missingVariables) /\
  exists e,
    createFromEnvironment env = Throws e /\
    message_of e = missingVariables /\
    initializeGmailManager env (friendlyWorld []) None = (Throws e, []).
Proof.
  apply (C4_factories_reject_incomplete_environment
           {[ "GOOGLE_CLIENT_ID"%string := "id.apps.googleusercontent.com"%string ]}
           (friendlyWorld []) None).
  right. reflexivity.
Defined.



End AuthClaims.

Module ClientClaims.
Import Flow Auth Account Gmail Scenario LogoutScenario GmailScenario.


End ClientClaims.

(** ** Lines of text *)

Module TextFacts.
Import Context7More.

Lemma append_assoc (a b c : string) : (a +:+ b) +:+ c = a +:+ (b +:+ c).
Proof. induction a as [|x a IH]; [reflexivity | exact (f_equal (String x) IH)]. Qed.

Lemma append_nil_r (a : string) : a +:+ EmptyString = a.
Proof. induction a as [|x a IH]; [reflexivity | exact (f_equal (String x) IH)]. Qed.

(** [split] never returns the empty list. *)
Lemma split_cons (sep : ascii) (s : string) :
  exists w ws, split sep s = w :: ws.
Proof.
  induction s as [|c s (w & ws & IH)]; simpl; [eauto|].
  destruct (Ascii.eqb c sep); [eauto|]. rewrite IH. eauto.
Qed.

(** Joining the pieces with the separator gives the string back. *)
Lemma join_split (sep : ascii) (s : string) :
  join (String sep EmptyString) (split sep s) = s.
Proof.
  induction s as [|c s IH]; [reflexivity|].
  destruct (split_cons sep s) as (w & ws & E).
  change (split sep (String c s))
    with (if Ascii.eqb c sep then EmptyString :: split sep s
          else match split sep s with
               | [] => [String c EmptyString]
               | w :: ws => String c w :: ws
               end).
  rewrite E in IH |- *.
  destruct (Ascii.eqb_spec c sep) as [->|Hne].
  - exact (f_equal (String sep) IH).
  - destruct ws; exact (f_equal (String c) IH).
Qed.

Lemma free_app sep a b : free sep a -> free sep b -> free sep (a +:+ b).
Proof. induction a as [|c a IH]; simpl; [tauto|]. intros [? ?] ?. split; auto. Qed.

(** No piece contains the separator. *)
Lemma split_free (sep : ascii) (s : string) : Forall (free sep) (split sep s).
Proof.
  induction s as [|c s IH]; simpl; [repeat constructor|].
  destruct (Ascii.eqb_spec c sep) as [->|Hne].
  - constructor; [exact I | exact IH].
  - destruct (split sep s) as [|w ws]; [repeat constructor; assumption|].
    inversion IH; subst. constructor; [split; assumption | assumption].
Qed.

Lemma split_free_one sep a : free sep a -> split sep a = [a].
Proof.
  induction a as [|c a IH]; simpl; [reflexivity|]. intros [Hne Hf].
  destruct (Ascii.eqb_spec c sep); [contradiction|]. rewrite (IH Hf). reflexivity.
Qed.

Lemma split_free_app sep a b :
  free sep a -> split sep (a +:+ String sep b) = a :: split sep b.
Proof.
  induction a as [|c a IH]; simpl.
  - intros _. rewrite Ascii.eqb_refl. reflexivity.
  - intros [Hne Hf]. destruct (Ascii.eqb_spec c sep); [contradiction|].
    rewrite (IH Hf). reflexivity.
Qed.

(** Splitting a joined list of separator-free pieces gives the pieces. *)
Lemma split_join (sep : ascii) (l : list string) :
  l <> [] -> Forall (free sep) l ->
  split sep (join (String sep EmptyString) l) = l.
Proof.
  induction l as [|w l IH]; [congruence|]. intros _ Hall.
  inversion Hall as [|? ? Hw Hl]; subst.
  destruct l as [|w' l]; [apply split_free_one, Hw|].
  change (join (String sep EmptyString) (w :: w' :: l))
    with (w +:+ String sep (join (String sep EmptyString) (w' :: l))).
  rewrite split_free_app by exact Hw. rewrite IH; [reflexivity | congruence | exact Hl].
Qed.

(** [oneLine] is freedom from the line feed. *)
Lemma oneLine_free (s : string) : oneLine s <-> free LF s.
Proof.
  unfold oneLine. induction s as [|c s IH].
  - simpl. split; [tauto | reflexivity].
  - rewrite includes_unfold.
    change (String.prefix nl (String c s))
      with (if ascii_dec LF c then String.prefix EmptyString s else false).
    simpl free. destruct (ascii_dec LF c) as [->|Hne].
    + destruct s; simpl; split; try discriminate; intros [H _]; congruence.
    + simpl. rewrite IH. split; [intros H; split; [congruence | exact H] | tauto].
Qed.

(** Decimal numerals have no line feed. *)
Lemma pretty_N_go_free (x : N) (s : string) : free LF s -> free LF (pretty_N_go x s).
Proof.
  revert s. induction (N.lt_wf_0 x) as [x _ IH]; intros s Hs.
  assert (x = 0 \/ 0 < x)%N as [->|Hpos] by lia.
  - rewrite pretty_N_go_0. exact Hs.
  - rewrite pretty_N_go_step by exact Hpos. apply IH.
    + apply N.div_lt; [exact Hpos | reflexivity].
    + split; [|exact Hs]. unfold pretty_N_char.
      repeat case_match; discriminate.
Qed.

Lemma pretty_nat_free (n : nat) : free LF (pretty n).
Proof.
  unfold pretty, pretty_nat, pretty, pretty_N.
  case_decide; [repeat split; discriminate | apply pretty_N_go_free; exact I].
Qed.

End TextFacts.

(** ** More on the documentation service *)

Module Context7Extras.
Import Context7 Context7More Context7Facts TextFacts Scenario.

Lemma inStep_getCachedResponse now key s :
  inStep s -> inStep (getCachedResponse now key s).1.
Proof.
  unfold inStep, getCachedResponse. intros H.
  destruct (live now (cache s !! key) (cacheExpiry s !! key)); [exact H|].
  destruct (cache s !! key); simpl; [|exact H].
  rewrite !dom_delete_L, H. reflexivity.
Qed.

Lemma inStep_apply fetch s op : inStep s -> inStep (apply fetch s op).
Proof.
  intros H. destruct op as [r|b|]; simpl.
  - unfold getRelevantDocumentation.
    destruct (enabled s); simpl; [|exact H].
    pose proof (inStep_getCachedResponse (asked_at r)
                  (cacheKey (operation r) (context r)) s H) as H1.
    destruct (getCachedResponse (asked_at r) (cacheKey (operation r) (context r)) s)
      as [s1 cached].
    simpl in H1. destruct cached; simpl; [exact H1|].
    destruct (fetch _); simpl; [|exact H1].
    unfold inStep in *. simpl. rewrite !dom_insert_L, H1. reflexivity.
  - exact H.
  - reflexivity.
Qed.

(** X1.  Whatever sequence of lookups, [setEnabled] and [clearCache] calls a
    service has seen since it was created, and whatever the fetch function
    answered, its value map and its expiry map hold exactly the same keys:
    the two maps never drift apart. *)
Theorem X1_cache_maps_hold_the_same_keys
  (fetch : SearchTerm -> Outcome Context7Response) (enabled0 : option bool) (ops : list Op) :
  dom (cache (history fetch ops (new enabled0)))
  = dom (cacheExpiry (history fetch ops (new enabled0))).
Proof.
  change (inStep (history fetch ops (new enabled0))).
  assert (H0 : inStep (new enabled0)) by reflexivity.
  revert H0. generalize (new enabled0).
  induction ops as [|op ops IH]; intros s Hs; [exact Hs|].
  apply IH, inStep_apply, Hs.
Qed.

(** X2.  [clearCache] forgets everything: the statistics are size 0 with no
    key, and the next lookup on the enabled service, for any operation and
    context and at any time, goes to the fetch function again. *)
Theorem X2_clearCache_forgets_every_entry
  (fetch : SearchTerm -> Outcome Context7Response) (s : Context7Service)
  (now later : Z) (operation : string) (context : option string) :
  enabled s = true ->
  getCacheStats (clearCache s) = (0%nat, ∅) /\
  fetched (getRelevantDocumentation fetch now later operation context (clearCache s))
  = [mapOperationToSearchTerm operation context].
Proof.
  intros Hen. split; [reflexivity|].
  unfold getRelevantDocumentation. simpl. rewrite Hen. simpl.
  rewrite getCachedResponse_absent by apply lookup_empty.
  destruct (fetch _); reflexivity.
Qed.

(** A service that holds an entry, cleared a moment after the entry was
    stored. *)
Lemma X2_clearCache_forgets_every_entry_witness :
  getCacheStats (clearCache staleService) = (0%nat, ∅) /\
  fetched (getRelevantDocumentation fetchFromContext7 1 2 "x" (Some "y"%string)
             (clearCache staleService))
  = [mapOperationToSearchTerm "x" (Some "y"%string)].
Proof.
  apply (X2_clearCache_forgets_every_entry fetchFromContext7 staleService 1 2 "x"
           (Some "y"%string)).
  reflexivity.
Defined.

(** X3.  A lookup touches no key but its own: the value and the expiry of
    every other key are after the call what they were before, whether the
    call hit, fetched or failed.  Expired entries of other keys are therefore
    never swept; they stay in the maps (and in the statistics) until their own
    key is looked up. *)
Theorem X3_lookup_leaves_other_keys_alone
  (fetch : SearchTerm -> Outcome Context7Response) (s : Context7Service)
  (now later : Z) (operation : string) (context : option string) (k : string) :
  k <> cacheKey operation context ->
  let c := getRelevantDocumentation fetch now later operation context s in
  cache (service c) !! k = cache s !! k /\
  cacheExpiry (service c) !! k = cacheExpiry s !! k.
Proof.
  intros Hne c. subst c. unfold getRelevantDocumentation.
  destruct (enabled s); simpl; [|done].
  pose proof (getCachedResponse_other now (cacheKey operation context) k s Hne) as Ho.
  destruct (getCachedResponse now (cacheKey operation context) s) as [s1 cached].
  simpl in Ho. destruct cached; simpl; [exact Ho|].
  destruct (fetch _); simpl; [|exact Ho].
  rewrite !lookup_insert_ne by congruence. exact Ho.
Qed.

(** The expired entry under [x-y] survives a lookup of another key at a
    later time. *)
Lemma X3_lookup_leaves_other_keys_alone_witness :
  let c := getRelevantDocumentation fetchFromContext7 10 11 "listMessages" None staleService in
  cache (service c) !! "x-y"%string = cache staleService !! "x-y"%string /\
  cacheExpiry (service c) !! "x-y"%string = cacheExpiry staleService !! "x-y"%string.
Proof.
  apply (X3_lookup_leaves_other_keys_alone fetchFromContext7 staleService 10 11
           "listMessages" None "x-y").
  discriminate.
Defined.

Lemma prefix_nil (s : string) : String.prefix EmptyString s = true.
Proof. destruct s; reflexivity. Qed.

Lemma prefix_app (p a b : string) :
  String.prefix p a = true -> String.prefix p (a +:+ b) = true.
Proof.
  revert a. induction p as [|c p IH]; intros a H; [apply prefix_nil|].
  destruct a as [|x a]; [discriminate H|].
  change (String.prefix (String c p) (String x (a +:+ b)) = true).
  simpl in *. destruct (ascii_dec c x); [apply IH, H | discriminate H].
Qed.

Lemma assoc_elem {A} (k : string) (l : list (string * A)) (v : A) :
  assoc k l = Some v -> exists k', In (k', v) l.
Proof.
  unfold assoc. destruct (List.find _ l) as [[k' v']|] eqn:E; [|discriminate].
  intros [= <-]. exists k'. apply List.find_some in E. apply E.
Qed.

Lemma operationMap_values :
  Forall (fun kv => String.prefix "Gmail API " kv.2 = true /\ truthy_str kv.2 = true)
         operationMap.
Proof. repeat constructor. Qed.

(** X4.  For every operation name that the object literal does not inherit
    from [Object.prototype], the search term is a string that starts with
    [Gmail API ], for the thirteen mapped operations as for any other such
    name; a non-empty context is appended after one space, an absent or empty
    context adds nothing. *)
Theorem X4_search_term_shape (operation : string) (context : option string) :
  assoc operation objectPrototype = None ->
  exists baseSearch,
    String.prefix "Gmail API " baseSearch = true /\
    mapOperationToSearchTerm operation context =
      Text match truthy context with
           | Some c => baseSearch +:+ " " +:+ c
           | None => baseSearch
           end.
Proof.
  intros Hown. unfold mapOperationToSearchTerm.
  assert (Hb : exists baseSearch,
             String.prefix "Gmail API " baseSearch = true /\
             default (Text ("Gmail API " +:+ operation)) (lookupOperation operation)
             = Text baseSearch).
  { unfold lookupOperation. rewrite Hown.
    destruct (assoc operation operationMap) as [v|] eqn:E.
    - apply assoc_elem in E as (k' & Hin).
      pose proof operationMap_values as Hall. rewrite List.Forall_forall in Hall.
      destruct (Hall _ Hin) as (Hp & Ht). simpl in Hp, Ht. rewrite Ht.
      exists v. split; [exact Hp | reflexivity].
    - exists ("Gmail API " +:+ operation). split; [|reflexivity].
      apply (prefix_app "Gmail API " "Gmail API " operation). reflexivity. }
  destruct Hb as (baseSearch & Hp & ->).
  exists baseSearch. split; [exact Hp|].
  destruct context as [c|]; simpl; [|reflexivity].
  destruct (truthy_str c); reflexivity.
Qed.

(** An operation the map does not know, with a context. *)
Lemma X4_search_term_shape_witness :
  exists baseSearch,
    String.prefix "Gmail API " baseSearch = true /\
    mapOperationToSearchTerm "archive" (Some "inbox"%string) =
      Text match truthy (Some "inbox"%string) with
           | Some c => baseSearch +:+ " " +:+ c
           | None => baseSearch
           end.
Proof.
  apply (X4_search_term_shape "archive" (Some "inbox"%string)). reflexivity.
Defined.

(** The names inherited from [Object.prototype] are the exception: with a
    context the term is the text of the inherited value followed by the
    context; without one the term is no string, the mock fetch fails on it, and
    the lookup answers [null] and stores nothing. *)
Example inherited_operation_names :
  mapOperationToSearchTerm "constructor" (Some "ctx"%string)
    = Text "function Object() { [native code] } ctx" /\
  mapOperationToSearchTerm "toString" None = Inherited "toString" /\
  let c := getRelevantDocumentation fetchFromContext7 0 1 "toString" None (new None) in
  result c = None /\ fetched c = [Inherited "toString"] /\ getCacheStats (service c) = (0%nat, ∅).
Proof. vm_compute. repeat split. Qed.

Lemma toLowerCase_app (a b : string) :
  toLowerCase (a +:+ b) = toLowerCase a +:+ toLowerCase b.
Proof.
  induction a as [|c a IH]; [reflexivity|].
  exact (f_equal (String (lower_ascii c)) IH).
Qed.

Lemma includes_app_l (a b needle : string) :
  includes a needle = true -> includes (a +:+ b) needle = true.
Proof.
  induction a as [|c a IH].
  - destruct needle; [intros _; destruct b; reflexivity | discriminate].
  - change (String c a +:+ b) with (String c (a +:+ b)).
    intros H. rewrite (includes_unfold (String c a)) in H.
    rewrite (includes_unfold (String c (a +:+ b))).
    cbv beta iota in H |- *. apply orb_true_iff in H as [H|H].
    + apply orb_true_iff. left. apply (prefix_app needle (String c a) b), H.
    + apply orb_true_iff. right. apply IH, H.
Qed.

Lemma find_head {A} (f : A -> bool) (x : A) (l : list A) :
  f x = true -> List.find f (x :: l) = Some x.
Proof. intros H. simpl. rewrite H. reflexivity. Qed.

(** X5.  For the operation [authenticate] the mock always answers with the
    OAuth2 documentation, whatever context is passed along: the search term is
    a string that begins with [Gmail API OAuth2 authentication], and the first
    mock key is tried first. *)
Theorem X5_authenticate_gets_oauth2_documentation (context : option string) :
  exists searchTerm,
    mapOperationToSearchTerm "authenticate" context = Text searchTerm /\
    assoc "Gmail API OAuth2 authentication" mockResponses
    = Some (getMockDocumentation searchTerm).
Proof.
  assert (Hterm : exists rest,
             mapOperationToSearchTerm "authenticate" context
             = Text ("Gmail API OAuth2 authentication" +:+ rest)).
  { unfold mapOperationToSearchTerm.
    change (default (Text ("Gmail API " +:+ "authenticate")) (lookupOperation "authenticate"))
      with (Text "Gmail API OAuth2 authentication").
    destruct context as [c|]; [destruct (truthy_str c)|].
    - exists (" " +:+ c). reflexivity.
    - exists EmptyString. rewrite append_nil_r. reflexivity.
    - exists EmptyString. rewrite append_nil_r. reflexivity. }
  destruct Hterm as (rest & ->). eexists. split; [reflexivity|].
  unfold getMockDocumentation, mockResponses.
  rewrite find_head; [reflexivity|].
  rewrite toLowerCase_app. apply includes_app_l. reflexivity.
Qed.

(** X6.  [formatDocumentationForTerminal] keeps the line structure of the
    text: the result has the same lines in the same order, each behind three
    spaces; nothing is dropped, wrapped or trimmed. *)
Theorem X6_terminal_format_indents_each_line (doc : string) :
  split LF (formatDocumentationForTerminal doc)
  = map (fun line => "   " +:+ line) (split LF doc).
Proof.
  unfold formatDocumentationForTerminal, nl. apply split_join.
  - destruct (split_cons LF doc) as (w & ws & ->). discriminate.
  - apply List.Forall_map. eapply List.Forall_impl; [|apply split_free].
    intros line Hline. apply free_app; [|exact Hline].
    repeat split; discriminate.
Qed.

Lemma join_snoc (lines : list string) (x : string) :
  lines <> [] -> join nl (lines ++ [x]) = join nl lines +:+ nl +:+ x.
Proof.
  induction lines as [|a lines IH]; [congruence|]. intros _.
  destruct lines as [|b lines]; [reflexivity|].
  change (a +:+ nl +:+ join nl ((b :: lines) ++ [x])
          = (a +:+ nl +:+ join nl (b :: lines)) +:+ nl +:+ x).
  rewrite IH by congruence. rewrite !append_assoc. reflexivity.
Qed.

Lemma block_line (lines : list string) (x : string) :
  lines <> [] -> block lines +:+ (x +:+ nl) = block (lines ++ [x]).
Proof.
  intros H. unfold block. rewrite join_snoc by exact H.
  rewrite !append_assoc. reflexivity.
Qed.

Lemma block_end (lines : list string) (x : string) :
  lines <> [] -> block lines +:+ x = join nl (lines ++ [x]).
Proof.
  intros H. unfold block. rewrite join_snoc by exact H.
  rewrite !append_assoc. reflexivity.
Qed.

Lemma forEachIndexed_ext {A} (f g : A -> nat -> string) l index comments :
  (forall x i, f x i = g x i) ->
  forEachIndexed f l index comments = forEachIndexed g l index comments.
Proof.
  intros H. revert index comments.
  induction l as [|x l IH]; intros index comments; simpl; [reflexivity|].
  rewrite H. apply IH.
Qed.

Lemma block_each {A} (h : nat -> A -> string) (l : list A) (index : nat)
  (lines : list string) :
  lines <> [] ->
  forEachIndexed (fun x i => h i x +:+ nl) l index (block lines)
  = block (lines ++ imap (fun j => h (index + j)%nat) l).
Proof.
  revert index lines. induction l as [|x l IH]; intros index lines H.
  - simpl. rewrite app_nil_r. reflexivity.
  - cbn [forEachIndexed imap]. rewrite block_line by exact H.
    rewrite IH by (destruct lines; discriminate).
    rewrite <- app_assoc. cbn [app]. rewrite Nat.add_0_r.
    do 3 f_equal. apply imap_ext. intros j y _. simpl. f_equal. lia.
Qed.

Lemma imap_ignore {A B} (g : A -> B) (l : list A) :
  imap (fun _ : nat => g) l = map g l.
Proof. apply imap_const. Qed.

Ltac nonempty :=
  let H := fresh in
  intros H; apply (f_equal (@length string)) in H;
  rewrite ?length_app in H; simpl in H; lia.

(** The comment block is its lines, joined by line feeds. *)
Lemma getAsCodeComments_lines (d : Context7Response) :
  getAsCodeComments (Some d) = join nl (commentLines d).
Proof.
  unfold getAsCodeComments, commentLines.
  change ("/**" +:+ nl) with (block ["/**"%string]).
  destruct (truthy_str (documentation d));
    destruct (examples d) as [|e es];
    destruct (relevantLinks d) as [|r rs];
    cbv zeta;
    rewrite ?(forEachIndexed_ext (fun line (_ : nat) => " * " +:+ line +:+ nl)
                (fun x i => (fun (_ : nat) line => " * " +:+ line) i x +:+ nl))
      by (intros; symmetry; apply append_assoc);
    rewrite ?(forEachIndexed_ext
                (fun example index =>
                   " * " +:+ pretty (index + 1)%nat +:+ ". " +:+ example +:+ nl)
                (fun x i => (fun index example =>
                               " * " +:+ pretty (index + 1)%nat +:+ ". " +:+ example) i x
                            +:+ nl))
      by (intros; rewrite !append_assoc; reflexivity);
    rewrite ?(forEachIndexed_ext (fun link (_ : nat) => " * - " +:+ link +:+ nl)
                (fun x i => (fun (_ : nat) link => " * - " +:+ link) i x +:+ nl))
      by (intros; symmetry; apply append_assoc);
    repeat first [ rewrite block_line by nonempty | rewrite block_each by nonempty ];
    rewrite block_end by nonempty;
    cbv beta; rewrite ?imap_ignore, <- ?app_assoc; reflexivity.
Qed.

Lemma Forall_imap_intro {A B} (P : A -> Prop) (Q : B -> Prop) (f : nat -> A -> B)
  (l : list A) :
  (forall i x, P x -> Q (f i x)) -> Forall P l -> Forall Q (imap f l).
Proof.
  intros Hf Hl. revert f Hf. induction Hl as [|x l Hx Hl IH]; intros f Hf.
  - constructor.
  - cbn [imap]. constructor; [apply Hf, Hx | apply IH; intros; apply Hf; assumption].
Qed.

(** A property of the fixed lines and of every line built from a piece of
    the response holds of all comment lines. *)
Lemma commentLines_tail_all (Q : string -> Prop) (d : Context7Response) :
  Forall Q [" * CONTEXT7 DOCUMENTATION"; " * "; " * Documentation:"; " * Examples:";
            " * Relevant Links:"; " */"]%string ->
  (forall line, free LF line -> Q (" * " +:+ line)) ->
  (forall index example, In example (examples d) ->
     Q (" * " +:+ pretty (index + 1)%nat +:+ ". " +:+ example)) ->
  (forall link, In link (relevantLinks d) -> Q (" * - " +:+ link)) ->
  Forall Q (tail (commentLines d)).
Proof.
  intros Hfixed Hdoc Hex Hlink.
  repeat match goal with
         | H : Forall _ (_ :: _) |- _ => inversion H; clear H; subst
         end.
  unfold commentLines. cbn [app tail].
  do 2 (apply List.Forall_cons; [assumption|]).
  repeat (apply List.Forall_app; split); [| | |repeat constructor; assumption].
  - destruct (truthy_str (documentation d)); [|constructor].
    apply List.Forall_cons; [assumption|].
    apply List.Forall_app; split; [|repeat constructor; assumption].
    apply List.Forall_map. eapply List.Forall_impl; [|apply split_free].
    exact Hdoc.
  - destruct (examples d) as [|e es] eqn:E; [constructor|].
    apply List.Forall_cons; [assumption|].
    apply List.Forall_app; split; [|repeat constructor; assumption].
    apply (Forall_imap_intro (fun x => In x (e :: es))); [intros; apply Hex; assumption|].
    apply List.Forall_forall. auto.
  - destruct (relevantLinks d) as [|r rs] eqn:E; [constructor|].
    apply List.Forall_cons; [assumption|].
    apply List.Forall_map. apply List.Forall_forall. intros x Hx. apply Hlink, Hx.
Qed.

Lemma commentLines_all (Q : string -> Prop) (d : Context7Response) :
  Q "/**"%string -> Forall Q (tail (commentLines d)) -> Forall Q (commentLines d).
Proof. intros H0 Ht. constructor; assumption. Qed.

(** X7.  [getAsCodeComments] returns the empty string for [null].  For a
    response whose examples and links contain no line feed, the lines of the
    returned text are exactly: the opening line, the title, the
    documentation text line by line, the numbered examples and the links, and
    the closing line; every line after the opening one begins with a space and
    a star, so the text is one well-formed block comment line by line. *)
Theorem X7_code_comment_is_a_block_of_lines (d : Context7Response) :
  Forall oneLine (examples d) ->
  Forall oneLine (relevantLinks d) ->
  getAsCodeComments None = EmptyString /\
  split LF (getAsCodeComments (Some d)) = commentLines d /\
  hd_error (commentLines d) = Some "/**"%string /\
  last (commentLines d) = Some " */"%string /\
  Forall (fun line => String.prefix " *" line = true) (tail (commentLines d)).
Proof.
  intros Hex Hlinks. split; [reflexivity|].
  rewrite List.Forall_forall in Hex, Hlinks.
  split; [|split; [reflexivity|split]].
  - rewrite getAsCodeComments_lines. apply split_join; [discriminate|].
    apply commentLines_all; [repeat split; discriminate|].
    apply commentLines_tail_all.
    + repeat constructor; discriminate.
    + intros line Hline. apply free_app; [repeat split; discriminate | exact Hline].
    + intros index example Hin.
      repeat apply free_app; try (repeat split; discriminate).
      * apply pretty_nat_free.
      * apply oneLine_free, Hex, Hin.
    + intros link Hin.
      apply free_app; [repeat split; discriminate | apply oneLine_free, Hlinks, Hin].
  - unfold commentLines. rewrite !app_assoc. apply last_snoc.
  - apply commentLines_tail_all.
    + repeat constructor.
    + intros. apply (prefix_app " *" " * "). reflexivity.
    + intros. apply (prefix_app " *" " * "). reflexivity.
    + intros. apply (prefix_app " *" " * - "). reflexivity.
Qed.

(** The mock documentation for sending mail. *)
Lemma X7_code_comment_is_a_block_of_lines_witness :
  getAsCodeComments None = EmptyString /\
  split LF (getAsCodeComments (Some (getMockDocumentation "Gmail API send email")))
  = commentLines (getMockDocumentation "Gmail API send email") /\
  hd_error (commentLines (getMockDocumentation "Gmail API send email")) = Some "/**"%string /\
  last (commentLines (getMockDocumentation "Gmail API send email")) = Some " */"%string /\
  Forall (fun line => String.prefix " *" line = true)
         (tail (commentLines (getMockDocumentation "Gmail API send email"))).
Proof.
  apply (X7_code_comment_is_a_block_of_lines (getMockDocumentation "Gmail API send email")).
  - repeat constructor.
  - repeat constructor.
Defined.

End Context7Extras.

(** ** More on the coordinator *)

Module AuthExtras.
Import Flow Auth Account FlowFacts AuthFacts TextFacts Context7More Scenario LogoutScenario.

Ltac unfold_auth :=
  unfold initialize, authenticate, loadTokens, isTokenValid, refreshToken, saveTokens,
    performOAuth2Flow, background, getTokenInfo, tryCatch, bind, emit, getCredentials,
    setClientCredentials, storeFile, await, ret, throw, initial.

(** X8.  The two environment factories accept exactly the same
    environments, and the manager built by [createFromEnvironment] holds the
    very [AuthService] that [AuthService.fromEnvironment] builds.  The
    manager's documentation service is switched off only by the exact value
    [false] of [CONTEXT7_ENABLED]; unset, empty or any other value leaves it
    on. *)
Theorem X8_factories_agree (env : Environment) :
  (forall a, fromEnvironment env = Returns a <->
             exists m, createFromEnvironment env = Returns m /\ authService m = a) /\
  (forall m, createFromEnvironment env = Returns m ->
             (Context7.enabled (context7Service m) = false <->
              env !! "CONTEXT7_ENABLED"%string = Some "false"%string)).
Proof.
  unfold fromEnvironment, createFromEnvironment.
  set (on := bool_decide (env !! "CONTEXT7_ENABLED"%string = Some "true"%string)).
  set (off := bool_decide (env !! "CONTEXT7_ENABLED"%string = Some "false"%string)).
  change (incomplete (configFromEnvironment env on))
    with (incomplete (configFromEnvironment env true)).
  change (incomplete (configFromEnvironment env (negb off)))
    with (incomplete (configFromEnvironment env true)).
  destruct (incomplete (configFromEnvironment env true)); split.
  - intros a. split; [discriminate | intros (m & Hm & _); discriminate].
  - intros m Hm. discriminate.
  - intros a. split.
    + intros [= <-]. eexists. split; reflexivity.
    + intros (m & [= <-] & <-). reflexivity.
  - intros m [= <-]. simpl. subst off. rewrite negb_false_iff, bool_decide_eq_true.
    reflexivity.
Qed.

(** X9.  The scopes a service gets from the environment are the pieces of
    [GOOGLE_SCOPES] (or of the default scope when the variable is unset or
    empty) between its commas: there is at least one, none contains a comma,
    and joined with commas they give the variable's text back, empty pieces
    and surrounding blanks included. *)
Theorem X9_scopes_are_the_comma_separated_pieces (env : Environment) (a : AuthService) :
  fromEnvironment env = Returns a ->
  scopes (config a) <> [] /\
  Forall (free ","%char) (scopes (config a)) /\
  join "," (scopes (config a))
  = or_default (env !! "GOOGLE_SCOPES"%string) "https://www.googleapis.com/auth/gmail.modify".
Proof.
  unfold fromEnvironment. destruct (incomplete _); [discriminate|].
  intros [= <-]. simpl. split; [|split].
  - destruct (split_cons "," (or_default (env !! "GOOGLE_SCOPES"%string)
                                "https://www.googleapis.com/auth/gmail.modify"))
      as (w & ws & ->). discriminate.
  - apply split_free.
  - apply (join_split ","%char).
Qed.

(** Two scopes with a blank after the comma. *)
Lemma X9_scopes_are_the_comma_separated_pieces_witness :
  let env : Environment :=
    {[ "GOOGLE_CLIENT_ID"%string := "id"%string;
       "GOOGLE_CLIENT_SECRET"%string := "secret"%string;
       "GOOGLE_SCOPES"%string := "gmail.readonly, gmail.send"%string ]} in
  let a := newAuthService
             (configFromEnvironment env
                (bool_decide (env !! "CONTEXT7_ENABLED"%string = Some "true"%string))) in
  scopes (config a) <> [] /\
  Forall (free ","%char) (scopes (config a)) /\
  join "," (scopes (config a))
  = or_default (env !! "GOOGLE_SCOPES"%string) "https://www.googleapis.com/auth/gmail.modify".
Proof.
  apply (X9_scopes_are_the_comma_separated_pieces
           {[ "GOOGLE_CLIENT_ID"%string := "id"%string;
              "GOOGLE_CLIENT_SECRET"%string := "secret"%string;
              "GOOGLE_SCOPES"%string := "gmail.readonly, gmail.send"%string ]}).
  reflexivity.
Defined.

(** Whatever a [tryCatch] throws was thrown by its handler. *)
Lemma tryCatch_throws {A} (m : M A) (handler : JsError -> M A) (P : JsError -> Prop)
  (s s' : State) (e : JsError) :
  (forall e0 s0 e1 s1, handler e0 s0 = (Throws e1, s1) -> P e1) ->
  tryCatch m handler s = (Throws e, s') -> P e.
Proof.
  intros Hh. unfold tryCatch. destruct (m s) as [[a|e0|] s0]; try discriminate.
  apply Hh.
Qed.

Lemma authenticate_throws (w : World) (s s' : State) (e : JsError) :
  authenticate w s = (Throws e, s') ->
  exists m, e = AuthenticationError ("Authentication failed: " +:+ m).
Proof.
  unfold authenticate.
  refine (tryCatch_throws _ _
            (fun e => exists m, e = AuthenticationError ("Authentication failed: " +:+ m))
            s s' e _).
  intros e0 s0 e1 s1 [= <- _]. eexists. reflexivity.
Qed.

(** X10.  Whatever goes wrong inside [authenticate()] (token refresh,
    interactive flow, saving the tokens), the caller sees an
    [AuthenticationError] whose message starts with [Authentication failed: ]. *)
Theorem X10_authenticate_fails_with_AuthenticationError
  (w : World) (s s' : State) (e : JsError) :
  authenticate w s = (Throws e, s') ->
  exists m, e = AuthenticationError ("Authentication failed: " +:+ m).
Proof. apply authenticate_throws. Qed.

(** The flow times out. *)
Lemma X10_authenticate_fails_with_AuthenticationError_witness :
  exists m,
    AuthenticationError "Authentication failed: Authentication timeout - please try again"
    = AuthenticationError ("Authentication failed: " +:+ m).
Proof.
  eapply (X10_authenticate_fails_with_AuthenticationError (friendlyWorld timedOut)
            (initial (newAuthService configured) None)).
  vm_compute. reflexivity.
Defined.

(** X11.  [GmailService.initialize()] turns every authentication failure
    into an [APIError] with status 500 whose message starts with
    [Failed to initialize Gmail API: Authentication failed: ]; it never lets
    an [AuthenticationError] through. *)
Theorem X11_initialize_fails_with_APIError_500
  (w : World) (s s' : State) (e : JsError) :
  initialize w s = (Throws e, s') ->
  exists m,
    e = APIError ("Failed to initialize Gmail API: Authentication failed: " +:+ m) 500.
Proof.
  unfold initialize, tryCatch.
  destruct (authenticate w s) as [[a|e0|] s0] eqn:E; try discriminate.
  intros [= <- _].
  destruct (authenticate_throws w s s0 e0 E) as (m & ->).
  exists m. reflexivity.
Qed.

(** The flow times out during start-up. *)
Lemma X11_initialize_fails_with_APIError_500_witness :
  exists m,
    APIError "Failed to initialize Gmail API: Authentication failed: Authentication timeout - please try again" 500
    = APIError ("Failed to initialize Gmail API: Authentication failed: " +:+ m) 500.
Proof.
  eapply (X11_initialize_fails_with_APIError_500 (friendlyWorld timedOut)
            (initial (newAuthService configured) None)).
  vm_compute. reflexivity.
Defined.

(** X12.  A stored credential that passes introspection and does not expire
    within five minutes (no expiry, expiry 0, or expiry at least 300 000 ms
    after now) is used as it is: [authenticate()] returns after reading the
    token file and one introspection request; it starts no listener, opens no
    browser, refreshes nothing and writes nothing, and the client holds the
    stored credential. *)
Theorem X12_valid_stored_credential_is_reused
  (w : World) (a : AuthService) (t : TokenData) :
  tokenInfo w (access_token t) = Fulfilled tt ->
  (forall e, expiry_date t = Some e -> e = 0 \/ now w + 300000 <= e) ->
  authenticate w (initial a (Some t))
  = (Returns tt,
     {| this := {| config := config a; storagePath := storagePath a;
                   clientCredentials := t |};
        tokenFile := Some t;
        trace := [ReadTokenFile; TokenInfoRequest (access_token t)] |}).
Proof.
  intros Hinfo Hexp.
  assert (Hsoon : expiresSoon w (expiry_date t) = false).
  { unfold expiresSoon, truthy_num. destruct (expiry_date t) as [e|]; [|reflexivity].
    destruct (Hexp e eq_refl) as [->|Hle]; [reflexivity|].
    apply andb_false_iff. right. apply Z.ltb_ge. lia. }
  unfold_auth. cbn -[run start expiresSoon]. rewrite Hinfo.
  cbn -[run start expiresSoon]. rewrite Hsoon. reflexivity.
Qed.

(** A credential that expires exactly five minutes from now. *)
Lemma X12_valid_stored_credential_is_reused_witness :
  authenticate (friendlyWorld []) (initial (newAuthService configured) (Some (storedTokens 1300000)))
  = (Returns tt,
     {| this := {| config := config (newAuthService configured);
                   storagePath := storagePath (newAuthService configured);
                   clientCredentials := storedTokens 1300000 |};
        tokenFile := Some (storedTokens 1300000);
        trace := [ReadTokenFile; TokenInfoRequest (access_token (storedTokens 1300000))] |}).
Proof.
  apply (X12_valid_stored_credential_is_reused (friendlyWorld [])
           (newAuthService configured) (storedTokens 1300000)).
  - reflexivity.
  - intros e [= <-]. right. simpl. lia.
Defined.




(** Two pipelined callback requests: the tokens of the first exchange are
    written to the token file; the second exchange, fulfilled while the file
    is written, leaves its own tokens in the client. *)
Example late_exchange_replaces_the_credentials :
  let w := {| now := 1000000;
              tokenInfo := fun _ => Fulfilled tt;
              refreshAccessToken := fun _ => Fulfilled freshTokens;
              writeFile := fun _ => Fulfilled tt;
              searchParams := plainSearchParams;
              getToken := openEndpoint;
              schedule := pipelined |} in
  let r := authenticate w (initial (newAuthService configured) None) in
  r.1 = Returns tt /\
  access_token <$> tokenFile r.2 = Some (Some "ya29.abc"%string) /\
  access_token (clientCredentials (this r.2)) = Some "ya29.xyz"%string.
Proof. vm_compute. repeat split. Qed.



(** X15.  [logout()] revokes only when the client holds an access token.
    If the revocation request fails, the call fails with an
    [AuthenticationError] starting with [Logout failed: ] and the token file
    is not touched: the stored tokens stay on disk.  Otherwise the call
    returns, the client's credentials are empty, [getAuthenticatedClient()]
    throws from then on, and the token file is gone unless removing it
    failed (which is ignored). *)
Theorem X15_logout_outcomes (lw : LogoutWorld) (s : State) :
  let '(r, s', did) := logout lw s in
  match r with
  | Throws e =>
      exists token error after,
        truthy (access_token (clientCredentials (this s))) = Some token /\
        revokeCredentials lw (clientCredentials (this s)) = (Rejects error, after) /\
        e = AuthenticationError ("Logout failed: " +:+ message_of error) /\
        did = [RevokeRequest token] /\
        tokenFile s' = tokenFile s
  | Returns _ =>
      clientCredentials (this s') = noCredentials /\
      getAuthenticatedClient (this s')
      = Throws (AuthenticationError
                  "No valid authentication. Please run authenticate() first.") /\
      (unlink lw = Fulfilled tt -> tokenFile s' = None) /\
      did = match truthy (access_token (clientCredentials (this s))) with
            | Some token => [RevokeRequest token; UnlinkTokenFile]
            | None => [UnlinkTokenFile]
            end
  | Hangs => False
  end.
Proof.
  unfold logout.
  destruct (truthy (access_token (clientCredentials (this s)))) as [token|] eqn:Et.
  - destruct (revokeCredentials lw (clientCredentials (this s))) as [[[]|error] after] eqn:Er.
    + repeat split. intros Hu. unfold clearLocal. simpl. rewrite Hu. reflexivity.
    + exists token, error, after. repeat split.
  - repeat split. intros Hu. unfold clearLocal. simpl. rewrite Hu. reflexivity.
Qed.

(** X16.  After a [logout()] that returned and removed the token file, the
    next [authenticate()] finds nothing to reuse: right after reading the
    token file it starts the listener of the interactive flow, without any
    introspection or refresh request in between. *)
Theorem X16_authenticate_after_logout_is_interactive
  (lw : LogoutWorld) (w : World) (s s' : State) (did : list LogoutEffect) :
  logout lw s = (Returns tt, s', did) ->
  unlink lw = Fulfilled tt ->
  exists rest,
    trace (authenticate w s').2 = trace s ++ ReadTokenFile :: StartListener :: rest.
Proof.
  intros Hl Hu.
  assert (Hs' : s' = clearLocal lw s).
  { unfold logout in Hl.
    destruct (truthy (access_token (clientCredentials (this s)))).
    - destruct (revokeCredentials lw (clientCredentials (this s))) as [[[]|error] after];
        [|discriminate]. congruence.
    - congruence. }
  subst s'. unfold clearLocal. rewrite Hu. unfold_auth. cbn -[run start].
  match goal with
  | |- context [promise ?f] => destruct (promise f); cbn -[run start]
  end.
  - eexists. rewrite <- !app_assoc. reflexivity.
  - match goal with
    | |- context [writeFile w (credentials ?f)] =>
        destruct (writeFile w (credentials f)) as [[]|e3]
    end; cbn -[run start]; eexists; rewrite <- !app_assoc; reflexivity.
  - eexists. rewrite <- !app_assoc. reflexivity.
Qed.

(** Logging out of a signed-in service, then authenticating again. *)
Lemma X16_authenticate_after_logout_is_interactive_witness :
  exists rest,
    trace (authenticate (friendlyWorld codeReceived) (clearLocal revoking signedIn)).2
    = trace signedIn ++ ReadTokenFile :: StartListener :: rest.
Proof.
  apply (X16_authenticate_after_logout_is_interactive revoking (friendlyWorld codeReceived)
           signedIn (clearLocal revoking signedIn) [RevokeRequest "ya29.stored"; UnlinkTokenFile]).
  - reflexivity.
  - reflexivity.
Defined.

(** X17.  [getTokenInfo()] sends no request when the client holds no access
    token, and every failure, the missing token included, reaches the caller
    as an [AuthenticationError] starting with [Failed to get token info: ];
    for the missing token the message is
    [Failed to get token info: No access token available]. *)
Theorem X17_getTokenInfo_failures (w : World) (s : State) :
  (truthy (access_token (clientCredentials (this s))) = None ->
   getTokenInfo w s
   = (Throws (AuthenticationError "Failed to get token info: No access token available"),
      s)) /\
  (forall e s', getTokenInfo w s = (Throws e, s') ->
     exists m, e = AuthenticationError ("Failed to get token info: " +:+ m)).
Proof.
  split.
  - intros Hn. unfold_auth. rewrite Hn. reflexivity.
  - intros e s'. unfold getTokenInfo.
    refine (tryCatch_throws _ _
              (fun e => exists m, e = AuthenticationError ("Failed to get token info: " +:+ m))
              s s' e _).
    intros e0 s0 e1 s1 [= <- _]. eexists. reflexivity.
Qed.

End AuthExtras.

(** ** More on the interactive flow *)

Module FlowExtras.
Import Flow FlowFacts FlowMore Scenario.

Section Exchange.

Variable searchParams : string -> JsError + list (string * string).
Variable getToken : string -> Outcome TokenData.
Variable before : TokenData.

Local Abbreviation step := (step searchParams getToken).
Local Abbreviation run := (run searchParams getToken).
Local Abbreviation Exchanged := (Exchanged searchParams getToken before).
Local Abbreviation delivered := (delivered searchParams).
Local Abbreviation issued := (issued getToken).

Lemma delivered_more evs ev code : delivered evs code -> delivered (evs ++ [ev]) code.
Proof.
  intros (url & qs & Hin & H). exists url, qs. split; [|exact H].
  apply in_or_app. left. exact Hin.
Qed.

Lemma requests_snoc evs ev :
  requests (evs ++ [ev]) = (requests evs + if isRequest ev then 1 else 0)%nat.
Proof.
  unfold requests. rewrite List.filter_app, length_app. simpl.
  destruct (isRequest ev); reflexivity.
Qed.

Lemma Exchanged_more evs ev f : Exchanged evs f -> Exchanged (evs ++ [ev]) f.
Proof.
  intros [(codes & He & Hd & Hn) Hf Hc Hr]. split; try assumption.
  exists codes. split; [exact He|]. split.
  - eapply List.Forall_impl; [|exact Hd]. intros code. apply delivered_more.
  - rewrite requests_snoc. lia.
Qed.

(** Rejecting never resolves. *)
Lemma reject_resolved e f : promise (reject e f) = Resolved -> promise f = Resolved.
Proof.
  unfold reject, settle. destruct (promise f) eqn:E; simpl; rewrite ?E; congruence.
Qed.

Lemma In_delete {A} (i : nat) (l : list A) (x : A) : In x (delete i l) -> In x l.
Proof.
  revert i. induction l as [|y l IH]; intros [|i]; simpl; auto.
  intros [H|H]; [left; exact H | right; apply (IH i), H].
Qed.

(** A state that differs from one satisfying the invariant only by calls
    that are no longer in flight, and by a promise that is not newly
    resolved, satisfies it too. *)
Lemma Exchanged_same evs f g :
  Exchanged evs f ->
  effects g = effects f ->
  (forall code, In code (exchanging g) -> In code (exchanging f)) ->
  credentials g = credentials f ->
  (promise g = Resolved -> promise f = Resolved) ->
  Exchanged evs g.
Proof.
  intros [He Hf Hc Hr] Ee Ex Ec Ep. split; unfold FlowMore.issued in *.
  - rewrite Ee. exact He.
  - intros code Hin. rewrite Ee. apply Hf, Ex, Hin.
  - rewrite Ec, Ee. exact Hc.
  - intros Hp. rewrite Ec, Ee. apply Hr, Ep, Hp.
Qed.

(** Answering, destroying and rejecting. *)
Lemma Exchanged_closing evs f e body :
  Exchanged evs f -> Exchanged evs (reject e (destroy (respond body f))).
Proof.
  intros HE. apply (Exchanged_same evs f); try exact HE.
  - unfold reject, settle. simpl. destruct (promise f); reflexivity.
  - unfold reject, settle. simpl. destruct (promise f); simpl; auto.
  - unfold reject. rewrite settle_credentials. reflexivity.
  - intros Hp. apply reject_resolved in Hp. exact Hp.
Qed.

Lemma Exchanged_step evs f ev :
  Exchanged evs f -> Exchanged (evs ++ [ev]) (step f ev).
Proof.
  intros HE. destruct ev as [url|i|]; simpl.
  - unfold onRequest.
    destruct (truthy url) as [u|] eqn:Hu; [|apply Exchanged_more, HE].
    destruct (includes u "/oauth2callback") eqn:Hin; [|apply Exchanged_more, HE].
    destruct (searchParams u) as [err|qs] eqn:Hqs.
    + unfold handlerCatch. apply Exchanged_more, Exchanged_closing, HE.
    + destruct (truthy (get "error" qs)) as [e|] eqn:Herr;
        [apply Exchanged_more, Exchanged_closing, HE|].
      destruct (truthy (get "code" qs)) as [c|] eqn:Hcode;
        [|apply Exchanged_more, Exchanged_closing, HE].
      assert (Hurl : url = Some u).
      { destruct url as [u'|]; [|discriminate]. simpl in Hu.
        destruct (truthy_str u'); congruence. }
      assert (Hc : delivered (evs ++ [Request url]) c).
      { exists u, qs. subst url. repeat split; try assumption.
        apply in_or_app. right. left. reflexivity. }
      destruct HE as [(codes & He & Hd & Hn) Hf Hcr Hr].
      split; unfold FlowMore.issued in *; simpl.
      * exists (codes ++ [c]). rewrite He, map_app. split; [reflexivity|]. split.
        -- apply List.Forall_app. split; [|repeat constructor; exact Hc].
           eapply List.Forall_impl; [|exact Hd]. intros code. apply delivered_more.
        -- rewrite length_app, requests_snoc. simpl. lia.
      * intros code Hx. apply in_app_or in Hx as [Hx|[<-|[]]].
        -- apply in_or_app. left. apply Hf, Hx.
        -- apply in_or_app. right. left. reflexivity.
      * destruct Hcr as [Hcr|(code & Hin' & Hg)]; [left; exact Hcr|].
        right. exists code. split; [apply in_or_app; left; exact Hin' | exact Hg].
      * intros Hp. destruct (Hr Hp) as (code & Hin' & Hg).
        exists code. split; [apply in_or_app; left; exact Hin' | exact Hg].
  - apply Exchanged_more. unfold onExchange.
    destruct (exchanging f !! i) as [code|] eqn:Hx; [|exact HE].
    assert (Hin : In (TokenExchange code) (effects f)).
    { apply (ex_flight _ _ _ _ _ HE). apply list_elem_of_In.
      apply (list_elem_of_lookup_2 _ i). exact Hx. }
    destruct (getToken code) as [tokens|err] eqn:Hg.
    + assert (Hi : issued (resolve (setCredentials tokens (endExchange i f))) tokens).
      { exists code. split; [|exact Hg].
        unfold resolve, settle. simpl. destruct (promise f); exact Hin. }
      destruct HE as [He Hf Hcr Hr]. split.
      * unfold resolve, settle. simpl. destruct (promise f); exact He.
      * intros c Hc.
        assert (Hc' : In c (exchanging f)).
        { apply (In_delete i). revert Hc. unfold resolve, settle. simpl.
          destruct (promise f); simpl; auto. }
        unfold resolve, settle. simpl. destruct (promise f); simpl; apply Hf, Hc'.
      * right. unfold resolve. rewrite settle_credentials. exact Hi.
      * intros _. unfold resolve. rewrite settle_credentials. exact Hi.
    + unfold handlerCatch. apply (Exchanged_same evs f); try exact HE.
      * unfold reject, settle. simpl. destruct (promise f); reflexivity.
      * intros c. unfold reject, settle. simpl.
        destruct (promise f); simpl; apply In_delete.
      * unfold reject. rewrite settle_credentials. reflexivity.
      * intros Hp. apply reject_resolved in Hp. exact Hp.
  - apply Exchanged_more.
    destruct (timer_armed f); [|exact HE].
    unfold onTimer. apply (Exchanged_same evs f); try exact HE.
    + unfold reject, settle. simpl. destruct (promise f); reflexivity.
    + unfold reject, settle. simpl. destruct (promise f); simpl; auto.
    + unfold reject. rewrite settle_credentials. reflexivity.
    + intros Hp. apply reject_resolved in Hp. exact Hp.
Qed.

Lemma Exchanged_reachable evs : Exchanged evs (run evs (start before)).
Proof.
  induction evs as [|ev evs IH] using rev_ind.
  - split; simpl.
    + exists []. repeat split; [constructor | unfold requests; simpl; lia].
    + intros code [].
    + left. reflexivity.
    + discriminate.
  - rewrite run_app. apply Exchanged_step. exact IH.
Qed.

End Exchange.

(** X18.  However many requests the handler is called with and whatever
    they carry, one flow opens the browser once, and every authorization code
    it exchanges was delivered by one of its callback requests; it never
    starts more exchanges than it has handled requests. *)
Theorem X18_exchanged_codes_were_delivered
  (searchParams : string -> JsError + list (string * string))
  (getToken : string -> Outcome TokenData) (creds : TokenData) (evs : list Event) :
  let f := run searchParams getToken evs (start creds) in
  exists codes,
    effects f = OpenBrowser :: map TokenExchange codes /\
    Forall (delivered searchParams evs) codes /\
    (length codes <= requests evs)%nat.
Proof. apply (ex_effects _ _ _ _ _ (Exchanged_reachable searchParams getToken creds evs)). Qed.

(** More than one code can be exchanged: a second callback request that is
    handled after the first one has destroyed the server starts an exchange
    of its own. *)
Example pipelined_requests :
  effects (run plainSearchParams tokenEndpoint pipelined (start noCredentials))
  = [OpenBrowser; TokenExchange "abc"; TokenExchange "xyz"].
Proof. reflexivity. Qed.

(** X19.  A flow resolves only with credentials that the token endpoint
    issued: when the promise is resolved, the client's credentials are the
    endpoint's answer to a code that the flow has exchanged and that one of
    its callback requests delivered. *)
Theorem X19_resolved_flow_holds_issued_credentials
  (searchParams : string -> JsError + list (string * string))
  (getToken : string -> Outcome TokenData) (creds : TokenData) (evs : list Event) :
  let f := run searchParams getToken evs (start creds) in
  promise f = Resolved ->
  exists code tokens,
    delivered searchParams evs code /\
    In (TokenExchange code) (effects f) /\
    getToken code = Fulfilled tokens /\
    credentials f = tokens.
Proof.
  intros f Hp.
  pose proof (Exchanged_reachable searchParams getToken creds evs) as HE. fold f in HE.
  destruct (ex_resolved _ _ _ _ _ HE Hp) as (code & Hin & Hg).
  exists code, (credentials f). repeat split; try assumption.
  destruct (ex_effects _ _ _ _ _ HE) as (codes & He & Hd & _).
  rewrite He in Hin. destruct Hin as [Hin|Hin]; [discriminate|].
  apply in_map_iff in Hin as (c & [= ->] & Hc).
  rewrite List.Forall_forall in Hd. apply Hd, Hc.
Qed.

(** The code path of the examples. *)
Lemma X19_resolved_flow_holds_issued_credentials_witness :
  let evs := [Request (Some "/oauth2callback?code=abc"%string); ExchangeSettles 0] in
  let f := run plainSearchParams tokenEndpoint evs (start noCredentials) in
  exists code tokens,
    delivered plainSearchParams evs code /\
    In (TokenExchange code) (effects f) /\
    tokenEndpoint code = Fulfilled tokens /\
    credentials f = tokens.
Proof.
  apply (X19_resolved_flow_holds_issued_credentials plainSearchParams tokenEndpoint
           noCredentials
           [Request (Some "/oauth2callback?code=abc"%string); ExchangeSettles 0]).
  reflexivity.
Defined.

(** X20.  An exchange that succeeds after the flow has been settled (by the
    watchdog, or by a request that was handled meanwhile) does not change the
    settlement, but its tokens are installed in the client all the same, and
    the call is no longer in flight. *)
Theorem X20_late_exchange_installs_tokens
  (searchParams : string -> JsError + list (string * string))
  (getToken : string -> Outcome TokenData) (creds : TokenData) (evs : list Event)
  (i : nat) (code : string) (tokens : TokenData) :
  let f := run searchParams getToken evs (start creds) in
  let f' := step searchParams getToken f (ExchangeSettles i) in
  exchanging f !! i = Some code ->
  settled (promise f) = true ->
  getToken code = Fulfilled tokens ->
  promise f' = promise f /\
  credentials f' = tokens /\
  exchanging f' = delete i (exchanging f).
Proof.
  intros f f' Hx Hs Hg. subst f'. unfold step, onExchange. rewrite Hx, Hg.
  unfold resolve. rewrite settle_idle by exact Hs. repeat split.
Qed.

(** The callback delivers the code, then the watchdog fires before the
    token endpoint has answered. *)
Lemma X20_late_exchange_installs_tokens_witness :
  let f := run plainSearchParams tokenEndpoint
             [Request (Some "/oauth2callback?code=abc"%string); TimerFires]
             (start noCredentials) in
  let f' := step plainSearchParams tokenEndpoint f (ExchangeSettles 0) in
  promise f' = promise f /\
  credentials f' = freshTokens /\
  exchanging f' = delete 0%nat (exchanging f).
Proof.
  apply (X20_late_exchange_installs_tokens plainSearchParams tokenEndpoint
           noCredentials [Request (Some "/oauth2callback?code=abc"%string); TimerFires]
           0%nat "abc" freshTokens).
  - reflexivity.
  - reflexivity.
  - reflexivity.
Defined.

End FlowExtras.

(** ** The Gmail service *)

Module GmailExtras.
Import Flow Auth Gmail Scenario GmailScenario.

Section WithApi.

Variable w : World.
Variable api : ApiCall -> option ApiError.

(** What [trashEach] has sent when every request up to a failing one
    succeeded. *)
Lemma trashEach_stops user ok bad rest err calls :
  (forall id, In id ok -> api (Trash user id) = None) ->
  api (Trash user bad) = Some err ->
  trashEach api user (ok ++ bad :: rest) calls
  = (inl (FromApi err), calls ++ map (Trash user) ok ++ [Trash user bad]).
Proof.
  revert calls. induction ok as [|id ok IH]; intros calls Hok Hbad.
  - simpl. unfold andThen, request. rewrite Hbad. reflexivity.
  - simpl. unfold andThen at 1. unfold request at 1.
    rewrite (Hok id) by (left; reflexivity).
    rewrite IH by (try assumption; intros; apply Hok; right; assumption).
    rewrite <- app_assoc. reflexivity.
Qed.

Lemma trashEach_all user ids calls :
  (forall id, In id ids -> api (Trash user id) = None) ->
  trashEach api user ids calls = (inr tt, calls ++ map (Trash user) ids).
Proof.
  revert calls. induction ids as [|id ids IH]; intros calls Hok.
  - simpl. rewrite app_nil_r. reflexivity.
  - simpl. unfold andThen at 1. unfold request at 1.
    rewrite (Hok id) by (left; reflexivity).
    rewrite IH by (intros; apply Hok; right; assumption).
    rewrite <- app_assoc. reflexivity.
Qed.

(** Every request of [trashEach] names one of the given ids. *)
Lemma trashEach_ids user ids (allowed : list string) calls :
  ids ⊆ allowed ->
  exists new, (trashEach api user ids calls).2 = calls ++ new /\
              Forall (fun c => idsOf c ⊆ allowed) new.
Proof.
  revert calls. induction ids as [|id ids IH]; intros calls Hsub.
  - exists []. simpl. rewrite app_nil_r. auto.
  - simpl. unfold andThen at 1. unfold request at 1.
    assert (Hid : idsOf (Trash user id) ⊆ allowed).
    { simpl. intros x Hx. apply list_elem_of_singleton in Hx as ->.
      apply Hsub. left. }
    destruct (api (Trash user id)).
    + exists [Trash user id]. simpl. auto.
    + destruct (IH (calls ++ [Trash user id])) as (new & Hnew & Hall).
      { intros x Hx. apply Hsub. right. exact Hx. }
      exists (Trash user id :: new). rewrite Hnew, <- app_assoc. simpl. auto.
Qed.

Lemma request_ids c (allowed : list string) calls :
  idsOf c ⊆ allowed ->
  exists new, (request api c calls).2 = calls ++ new /\
              Forall (fun c => idsOf c ⊆ allowed) new.
Proof.
  intros Hc. exists [c]. unfold request. destruct (api c); simpl; auto.
Qed.

Lemma batchBody_ids user operation calls :
  exists new, (batchBody api user operation calls).2 = calls ++ new /\
              Forall (fun c => idsOf c ⊆ messageIds operation) new.
Proof.
  unfold batchBody, andThen.
  assert (Hswitch : exists new,
             (switchAction api user operation calls).2 = calls ++ new /\
             Forall (fun c => idsOf c ⊆ messageIds operation) new).
  { unfold switchAction.
    repeat match goal with
           | |- context [if ?b then _ else _] => destruct b
           end;
      try (apply request_ids; simpl; reflexivity).
    - apply trashEach_ids. reflexivity.
    - exists []. unfold raise. simpl. rewrite app_nil_r. auto. }
  destruct Hswitch as (new1 & H1 & Hall1).
  destruct (switchAction api user operation calls) as [[t|[]] calls1]; simpl in H1.
  - exists new1. simpl. auto.
  - subst calls1.
    destruct (labelIds operation) as [[|l ls]|].
    + exists new1. simpl. auto.
    + destruct (request_ids (BatchModify user (messageIds operation) (Some (l :: ls)) None)
                  (messageIds operation) (calls ++ new1)) as (new2 & H2 & Hall2);
        [simpl; reflexivity|].
      exists (new1 ++ new2). rewrite H2, <- app_assoc. split; [reflexivity|].
      apply Forall_app. auto.
    + exists new1. simpl. auto.
Qed.

End WithApi.

(** X21.  A batch operation never names a message that is not among the
    operation's [messageIds]: whatever the action, the labels and the answers
    of the API, every request it sends (none at all if initialization fails)
    is about ids of the operation only, and earlier requests stay recorded. *)
Theorem X21_batch_touches_only_the_given_messages
  (w : World) (api : ApiCall -> option ApiError) (operation : BatchOperation)
  (g : Service) :
  exists new,
    sent (performBatchOperation w api operation g).2 = sent g ++ new /\
    Forall (fun c => idsOf c ⊆ messageIds operation) new.
Proof.
  unfold performBatchOperation, ensureInitialized, initializeService.
  destruct (gmail g).
  - destruct (batchBody_ids api (userId g) operation (sent g)) as (new & Hn & Hall).
    exists new. destruct (batchBody api (userId g) operation (sent g)) as [[t|[]] calls];
      simpl in *; auto.
  - destruct (initialize w (auth g)) as [[[]|e|] s]; simpl.
    + destruct (batchBody_ids api (userId g) operation (sent g)) as (new & Hn & Hall).
      exists new. destruct (batchBody api (userId g) operation (sent g)) as [[t|[]] calls];
        simpl in *; auto.
    + exists []. rewrite app_nil_r. auto.
    + exists []. rewrite app_nil_r. auto.
Qed.

(** X22.  An action that is none of [read], [unread], [archive], [delete],
    [trash], [spam] sends no request and fails with an [APIError] whose message
    is [Failed to perform batch operation: Unknown action: <action>] and whose
    status is 500: the status 400 of the inner error is not kept, because the
    [catch] block reads [error.status], which the package's own errors do not
    have. *)
Theorem X22_unknown_action_fails_with_status_500
  (w : World) (api : ApiCall -> option ApiError) (operation : BatchOperation)
  (g : Service) :
  gmail g = true ->
  ~ In (action operation) knownActions ->
  performBatchOperation w api operation g
  = (Throws (APIError
               ("Failed to perform batch operation: Unknown action: " +:+ action operation)
               500),
     g).
Proof.
  intros Hg Hno. unfold performBatchOperation, ensureInitialized. rewrite Hg.
  unfold batchBody, andThen, switchAction.
  repeat match goal with
         | |- context [String.eqb (action operation) ?a] =>
             destruct (String.eqb_spec (action operation) a) as [Heq|_];
             [exfalso; apply Hno; rewrite Heq; simpl; tauto|]
         end.
  unfold raise. simpl. destruct g; simpl in *. subst. reflexivity.
Qed.

Lemma X22_unknown_action_fails_with_status_500_witness :
  performBatchOperation (friendlyWorld []) obliging purge ready
  = (Throws (APIError
               ("Failed to perform batch operation: Unknown action: " +:+ action purge)
               500),
     ready).
Proof.
  apply (X22_unknown_action_fails_with_status_500 (friendlyWorld []) obliging purge ready).
  - reflexivity.
  - simpl. intros [H|[H|[H|[H|[H|[H|[]]]]]]]; discriminate H.
Defined.

(** X23.  The [trash] action is not atomic: the messages are trashed one
    request after the other, and the first request that fails ends the
    operation.  The messages before it have been trashed, the ones after it
    are not touched, the additional labels are not applied, and the error
    carries the API's message and status. *)
Theorem X23_trash_stops_at_the_first_failure
  (w : World) (api : ApiCall -> option ApiError) (g : Service)
  (ok rest : list string) (bad : string) (labels : option (list string)) (err : ApiError) :
  gmail g = true ->
  (forall id, In id ok -> api (Trash (userId g) id) = None) ->
  api (Trash (userId g) bad) = Some err ->
  let operation := {| messageIds := ok ++ bad :: rest; action := "trash";
                      labelIds := labels |} in
  let r := performBatchOperation w api operation g in
  r.1 = Throws (APIError
                  ("Failed to perform batch operation: " +:+ messageOr (FromApi err))
                  (statusOr (FromApi err))) /\
  sent r.2 = sent g ++ map (Trash (userId g)) ok ++ [Trash (userId g) bad].
Proof.
  intros Hg Hok Hbad operation r. subst r operation.
  unfold performBatchOperation, ensureInitialized. rewrite Hg.
  unfold batchBody, andThen, switchAction. cbn [action messageIds String.eqb Ascii.eqb
    Bool.eqb].
  rewrite (trashEach_stops api (userId g) ok bad rest err (sent g) Hok Hbad).
  split; reflexivity.
Qed.

(** Four messages, the third of which the API cannot find. *)
Lemma X23_trash_stops_at_the_first_failure_witness :
  let operation := {| messageIds := ["m1"; "m2"]%string ++ "m3"%string :: ["m4"%string];
                      action := "trash";
                      labelIds := Some ["Label_1"%string] |} in
  let r := performBatchOperation (friendlyWorld []) missing_m3 operation ready in
  r.1 = Throws (APIError
                  ("Failed to perform batch operation: "
                   +:+ messageOr (FromApi {| error_message :=
                                               Some "Requested entity was not found."%string;
                                             error_status := Some 404 |}))
                  (statusOr (FromApi {| error_message :=
                                          Some "Requested entity was not found."%string;
                                        error_status := Some 404 |}))) /\
  sent r.2 = sent ready ++ map (Trash (userId ready)) ["m1"; "m2"]%string
             ++ [Trash (userId ready) "m3"].
Proof.
  apply (X23_trash_stops_at_the_first_failure (friendlyWorld []) missing_m3 ready
           ["m1"; "m2"]%string ["m4"%string] "m3" (Some ["Label_1"%string])
           {| error_message := Some "Requested entity was not found."%string;
              error_status := Some 404 |}).
  - reflexivity.
  - intros id [<-|[<-|[]]]; reflexivity.
  - reflexivity.
Defined.

(** X24.  When the API answers every request, an operation with a known
    action returns after one request for [read], [unread], [archive],
    [delete] and [spam], or one request per message for [trash], followed by
    one more request when additional labels are given (and not an empty
    list); that last request adds the labels to all the messages. *)
Theorem X24_requests_of_a_successful_batch
  (w : World) (api : ApiCall -> option ApiError) (operation : BatchOperation)
  (g : Service) :
  gmail g = true ->
  (forall c, api c = None) ->
  In (action operation) knownActions ->
  let r := performBatchOperation w api operation g in
  exists primary,
    r.1 = Returns tt /\
    sent r.2 = sent g ++ primary
               ++ match labelIds operation with
                  | Some (l :: ls) =>
                      [BatchModify (userId g) (messageIds operation) (Some (l :: ls)) None]
                  | _ => []
                  end /\
    length primary = if String.eqb (action operation) "trash"
                     then length (messageIds operation) else 1%nat.
Proof.
  intros Hg Hapi Hin r. subst r.
  unfold performBatchOperation, ensureInitialized. rewrite Hg.
  assert (Hswitch : exists primary,
             switchAction api (userId g) operation (sent g) = (inr tt, sent g ++ primary) /\
             length primary = if String.eqb (action operation) "trash"
                              then length (messageIds operation) else 1%nat).
  { unfold switchAction, request. simpl in Hin.
    destruct Hin as [<-|[<-|[<-|[<-|[<-|[<-|[]]]]]]]; simpl; rewrite ?Hapi;
      try (eexists; split; [reflexivity | reflexivity]).
    exists (map (Trash (userId g)) (messageIds operation)).
    rewrite trashEach_all by (intros; apply Hapi). rewrite length_map. auto. }
  destruct Hswitch as (primary & Hs & Hlen). exists primary.
  unfold batchBody, andThen. rewrite Hs.
  destruct (labelIds operation) as [[|l ls]|]; unfold request, done; rewrite ?Hapi;
    simpl; rewrite ?app_nil_r, <- ?app_assoc; auto.
Qed.

(** Trashing four messages and labelling them. *)
Lemma X24_requests_of_a_successful_batch_witness :
  let r := performBatchOperation (friendlyWorld []) obliging trashFour ready in
  exists primary,
    r.1 = Returns tt /\
    sent r.2 = sent ready ++ primary
               ++ match labelIds trashFour with
                  | Some (l :: ls) =>
                      [BatchModify (userId ready) (messageIds trashFour) (Some (l :: ls)) None]
                  | _ => []
                  end /\
    length primary = if String.eqb (action trashFour) "trash"
                     then length (messageIds trashFour) else 1%nat.
Proof.
  apply (X24_requests_of_a_successful_batch (friendlyWorld []) obliging trashFour ready).
  - reflexivity.
  - reflexivity.
  - simpl. tauto.
Defined.


End GmailExtras.

(** ** Raw messages *)

Module MimeFacts.
Import Mime.

(** Induction in steps of three bytes. *)
Lemma string_ind3 (P : string -> Prop) :
  P EmptyString ->
  (forall a, P (String a EmptyString)) ->
  (forall a b, P (String a (String b EmptyString))) ->
  (forall a b c rest, P rest -> P (String a (String b (String c rest)))) ->
  forall s, P s.
Proof.
  intros H0 H1 H2 H3 s.
  assert (H : P s /\ (forall a, P (String a s)) /\ (forall a b, P (String a (String b s)))).
  { induction s as [|c s (IH0 & IH1 & IH2)]; [auto|].
    split; [exact (IH1 c)|]. split; [exact (fun a => IH2 a c)|].
    intros a b. exact (H3 a b c s IH0). }
  apply H.
Qed.

(** Every digit, also after the two replacements, is URL-safe and is not the
    padding character. *)
Lemma urlDigit_safe (i : N) :
  urlSafe (urlDigit i) = true /\ Ascii.eqb (urlDigit i) "=" = false.
Proof.
  unfold urlDigit, digit. generalize (N.to_nat i). intros n.
  do 64 (destruct n as [|n]; [split; reflexivity|]). split; reflexivity.
Qed.

Lemma valueOf_urlDigit (i : N) : (i < 64)%N -> valueOf (urlDigit i) = i.
Proof.
  intros Hi. rewrite <- (N2Nat.id i) at 2. unfold urlDigit, digit.
  assert (Hn : (N.to_nat i < 64)%nat) by lia.
  revert Hn. generalize (N.to_nat i). intros n Hn.
  do 64 (destruct n as [|n]; [reflexivity|]). lia.
Qed.

(** The two replacements turn a digit into its URL-safe form. *)
Lemma replaceAll_digit (i : N) (rest : string) :
  replaceAll "/" "_" (replaceAll "+" "-" (String (digit i) rest))
  = String (urlDigit i) (replaceAll "/" "_" (replaceAll "+" "-" rest)).
Proof.
  unfold urlDigit. simpl. destruct (Ascii.eqb (digit i) "+"); reflexivity.
Qed.

Lemma stripTrailing_cons (x c : ascii) (rest : string) :
  Ascii.eqb c x = false ->
  stripTrailing x (String c rest) = String c (stripTrailing x rest).
Proof.
  intros H. simpl. rewrite H. destruct (stripTrailing x rest); reflexivity.
Qed.

(** The three steps of [toBase64Url] compute unpadded URL-safe base64. *)
Lemma toBase64Url_base64url (s : string) : toBase64Url s = base64url s.
Proof.
  unfold toBase64Url. induction s as [|a|a b|a b c rest IH] using string_ind3.
  - reflexivity.
  - cbn [base64 base64url]. unfold digit0, digit1. rewrite !replaceAll_digit.
    rewrite !stripTrailing_cons by apply urlDigit_safe. reflexivity.
  - cbn [base64 base64url]. unfold digit0, digit1, digit2. rewrite !replaceAll_digit.
    rewrite !stripTrailing_cons by apply urlDigit_safe. reflexivity.
  - cbn [base64 base64url]. unfold digit0, digit1, digit2, digit3.
    rewrite !replaceAll_digit.
    rewrite !stripTrailing_cons by apply urlDigit_safe. rewrite IH. reflexivity.
Qed.

Lemma base64url_safe (s : string) : allChars urlSafe (base64url s) = true.
Proof.
  induction s as [|a|a b|a b c rest IH] using string_ind3; cbn [base64url allChars];
    rewrite ?(proj1 (urlDigit_safe _)), ?IH; reflexivity.
Qed.

Lemma N_of_ascii_bound (a : ascii) : (N_of_ascii a < 256)%N.
Proof. destruct a as [[] [] [] [] [] [] [] []]; reflexivity. Qed.

Lemma byteOf_N_of_ascii (a : ascii) (n : N) :
  (n mod 256 = N_of_ascii a)%N -> byteOf n = a.
Proof. intros H. unfold byteOf. rewrite H. apply ascii_N_embedding. Qed.

(** Arithmetic of the 24-bit groups. *)
Lemma bits_bound (a b c : ascii) : (bits a b c < 16777216)%N.
Proof.
  unfold bits. pose proof (N_of_ascii_bound a). pose proof (N_of_ascii_bound b).
  pose proof (N_of_ascii_bound c). lia.
Qed.

Lemma regroup (n : N) :
  (n / 262144 * 262144 + (n / 4096) mod 64 * 4096 + (n / 64) mod 64 * 64 + n mod 64 = n)%N.
Proof.
  pose proof (N.Div0.div_div n 4096 64) as H1. change (4096 * 64)%N with 262144%N in H1.
  pose proof (N.Div0.mod_mul_r n 64 64) as H2. change (64 * 64)%N with 4096%N in H2.
  pose proof (N.div_mod n 4096 ltac:(discriminate)) as H3.
  pose proof (N.div_mod (n / 4096) 64 ltac:(discriminate)) as H4.
  lia.
Qed.

Lemma regroup_two (a b : ascii) :
  let n := bits a b zero in
  (n / 262144 * 262144 + (n / 4096) mod 64 * 4096 + (n / 64) mod 64 * 64 = n)%N.
Proof.
  intros n. pose proof (regroup n) as H.
  assert (Hm : (n mod 64 = 0)%N).
  { symmetry. apply (N.mod_unique _ 64 (N_of_ascii a * 1024 + N_of_ascii b * 4)%N); [lia|].
    subst n. unfold bits. change (N_of_ascii zero) with 0%N. lia. }
  lia.
Qed.

Lemma regroup_one (a : ascii) :
  let n := bits a zero zero in
  (n / 262144 * 262144 + (n / 4096) mod 64 * 4096 = n)%N.
Proof.
  intros n. pose proof (regroup n) as H.
  pose proof (N.Div0.mod_mul_r n 64 64) as H2. change (64 * 64)%N with 4096%N in H2.
  assert (Hm : (n mod 4096 = 0)%N).
  { symmetry. apply (N.mod_unique _ 4096 (N_of_ascii a * 16)%N); [lia|].
    subst n. unfold bits. change (N_of_ascii zero) with 0%N. lia. }
  lia.
Qed.

Lemma byte0 (a b c : ascii) : byteOf (bits a b c / 65536) = a.
Proof.
  pose proof (N_of_ascii_bound a). pose proof (N_of_ascii_bound b).
  pose proof (N_of_ascii_bound c).
  apply byteOf_N_of_ascii. unfold bits.
  rewrite <- (N.div_unique _ 65536 (N_of_ascii a) (N_of_ascii b * 256 + N_of_ascii c)) by lia.
  apply N.mod_small; lia.
Qed.

Lemma byte1 (a b c : ascii) : byteOf (bits a b c / 256) = b.
Proof.
  pose proof (N_of_ascii_bound a). pose proof (N_of_ascii_bound b).
  pose proof (N_of_ascii_bound c).
  apply byteOf_N_of_ascii. unfold bits.
  rewrite <- (N.div_unique _ 256 (N_of_ascii a * 256 + N_of_ascii b) (N_of_ascii c)) by lia.
  symmetry. apply (N.mod_unique _ 256 (N_of_ascii a)); lia.
Qed.

Lemma byte2 (a b c : ascii) : byteOf (bits a b c) = c.
Proof.
  pose proof (N_of_ascii_bound c).
  apply byteOf_N_of_ascii. unfold bits.
  symmetry. apply (N.mod_unique _ 256 (N_of_ascii a * 256 + N_of_ascii b)); lia.
Qed.

Local Ltac six_bits Hn :=
  first [apply N.mod_lt; discriminate | apply N.Div0.div_lt_upper_bound; exact Hn].

(** Decoding undoes the encoding, for every byte sequence. *)
Lemma decode_base64url (s : string) : decodeBase64Url (base64url s) = s.
Proof.
  induction s as [|a|a b|a b c rest IH] using string_ind3.
  - reflexivity.
  - cbn [base64url decodeBase64Url]. pose proof (bits_bound a zero zero) as Hn.
    rewrite !valueOf_urlDigit by six_bits Hn.
    rewrite (regroup_one a), byte0. reflexivity.
  - cbn [base64url decodeBase64Url]. pose proof (bits_bound a b zero) as Hn.
    rewrite !valueOf_urlDigit by six_bits Hn.
    rewrite (regroup_two a b), byte0, byte1. reflexivity.
  - cbn [base64url decodeBase64Url]. pose proof (bits_bound a b c) as Hn.
    rewrite !valueOf_urlDigit by six_bits Hn.
    rewrite (regroup (bits a b c)), byte0, byte1, byte2, IH. reflexivity.
Qed.

(** Four digits for three bytes, two for one byte, three for two. *)
Lemma base64url_length (s : string) :
  (3 * String.length (base64url s) <= 4 * String.length s + 2
   < 3 * String.length (base64url s) + 3)%nat.
Proof.
  induction s as [|a|a b|a b c rest IH] using string_ind3;
    cbn [base64url String.length]; lia.
Qed.

End MimeFacts.

Module MimeExtras.
Import Mime MimeFacts.

(** X26.  The raw message that [createRawMessage] returns is written in the
    URL-safe alphabet only: letters, digits, [-] and [_]; it holds no [+], no
    [/] and no padding [=], whatever the email and its attachments contain. *)
Theorem X26_raw_message_is_url_safe (now : Z) (random : string) (email : EmailComposition) :
  allChars urlSafe (createRawMessage now random email) = true.
Proof.
  unfold createRawMessage. rewrite toBase64Url_base64url. apply base64url_safe.
Qed.

(** X27.  Nothing of the message is lost by the encoding of
    [createRawMessage]: decoding the raw message as unpadded URL-safe base64
    gives back the MIME text, byte for byte, for every email; the removal of
    the padding and the two character replacements are undone by the decoder. *)
Theorem X27_raw_message_decodes_to_the_mime_text
    (now : Z) (random : string) (email : EmailComposition) :
  decodeBase64Url (createRawMessage now random email) = mimeMessage now random email.
Proof.
  unfold createRawMessage. rewrite toBase64Url_base64url. apply decode_base64url.
Qed.

(** X28.  The raw message is as long as unpadded base64 makes it: four
    characters for every three bytes of the MIME text, rounded up, so
    [ceil (4 n / 3)] characters for [n] bytes; the padding that [Buffer] adds
    is not counted, since it was removed. *)
Theorem X28_raw_message_length (now : Z) (random : string) (email : EmailComposition) :
  let n := String.length (mimeMessage now random email) in
  let raw := String.length (createRawMessage now random email) in
  (3 * raw <= 4 * n + 2 < 3 * raw + 3)%nat.
Proof.
  cbv zeta. unfold createRawMessage. rewrite toBase64Url_base64url.
  apply base64url_length.
Qed.

End MimeExtras.
